(** * kong-http-log: the time-rotating log writer, its worker loop and its
      ingress handler (main.go)

    The Go program is embedded shallowly.  The handler struct, the config
    struct and the results of the library calls the program makes ([os],
    [path], [time], [fmt], [sync]) are explicit values; a small in-memory
    operating system ([World]) stands for the file system, the heap of
    [*os.File] objects and the wall clock, so that every function of
    main.go is an executable state transformer. *)

From Stdlib Require Import ZArith Lia List String Ascii.
From Stdlib.Strings Require Import Byte.
From stdpp Require Import gmap strings list fin_maps.

Local Open Scope string_scope.
Local Open Scope list_scope.
Local Open Scope Z_scope.

(** ** Machine integers *)

(** Go's [int64] and [int] (64 bit) hold a value in [-2^63, 2^63); their
    arithmetic wraps around silently. *)
Definition min_int64 : Z := - 2 ^ 63.
Definition max_int64 : Z := 2 ^ 63 - 1.
Definition wrap_int64 (z : Z) : Z := (z + 2 ^ 63) mod 2 ^ 64 - 2 ^ 63.
Definition in_int64 (z : Z) : Prop := min_int64 <= z <= max_int64.

(** [uint64], the type of [ConfigStruct.handledNum]. *)
Definition wrap_uint64 (z : Z) : Z := z mod 2 ^ 64.

Definition int64_add (a b : Z) : Z := wrap_int64 (a + b).
Definition int64_mul (a b : Z) : Z := wrap_int64 (a * b).

(** ** Errors *)

Inductive errno : Type :=
| ENOENT | ENOTDIR | EISDIR | EEXIST | ENOSPC | EBADF | EIO
| ErrClosed                      (* os.ErrClosed: file already closed *)
| EINVAL.

Inductive error : Type :=
| PathError (op path : string) (e : errno)         (* *os.PathError *)
| LinkError (op old new : string) (e : errno)      (* *os.LinkError *)
| ErrInvalid                                       (* os.ErrInvalid, unwrapped *)
| InvalidWhenRotate (when : Z)   (* fmt.Errorf("invalid when_rotate: %d", when) *)
| NilDereference                 (* runtime error: nil pointer dereference *)
| UnlockOfUnlockedMutex.         (* fatal error: sync: unlock of unlocked mutex *)

#[global] Instance errno_eq_dec : EqDecision errno.
Proof. solve_decision. Defined.
#[global] Instance error_eq_dec : EqDecision error.
Proof. solve_decision. Defined.

(** The two kinds of failure the constructor can report. *)
Definition is_ConfigError (e : error) : bool :=
  match e with InvalidWhenRotate _ => true | _ => false end.
Definition is_IOError (e : error) : bool :=
  match e with PathError _ _ _ | LinkError _ _ _ _ | ErrInvalid => true | _ => false end.

(** ** Package [path] *)

Module path.

(** The elements of a slash-separated path; joining them with "/" gives
    the path back. *)
Fixpoint components (s : string) : list string :=
  match s with
  | EmptyString => [EmptyString]
  | String c s' =>
      if Ascii.eqb c "/" then EmptyString :: components s'
      else match components s' with
           | x :: xs => String c x :: xs
           | [] => [String c EmptyString]
           end
  end.

Fixpoint join (cs : list string) : string :=
  match cs with
  | [] => ""
  | [c] => c
  | c :: cs' => c +:+ "/" +:+ join cs'
  end.

Definition rooted (p : string) : bool :=
  match p with String c _ => Ascii.eqb c "/" | EmptyString => false end.

(** One element of [Clean]'s scan; [stack] holds the kept elements, last
    one first. *)
Definition clean_step (root : bool) (stack : list string) (c : string)
  : list string :=
  if bool_decide (c = "" ∨ c = ".") then stack
  else if bool_decide (c = "..") then
    match stack with
    | top :: rest => if bool_decide (top = "..") then c :: stack else rest
    | [] => if root then [] else [c]
    end
  else c :: stack.

(** [path.Clean]: no empty and no "." element, ".." cancelled against the
    element before it, "." for the empty path. *)
Definition Clean (p : string) : string :=
  let body := join (rev (fold_left (clean_step (rooted p)) (components p) [])) in
  if rooted p then "/" +:+ body
  else if bool_decide (body = "") then "." else body.

(** [path.Dir]: everything up to the last slash, cleaned. *)
Definition Dir (p : string) : string :=
  match removelast (components p) with
  | [] => Clean ""
  | cs => Clean (join cs +:+ "/")
  end.

(** The directories on the way to [p], outermost first, [p] included. *)
Definition ancestors (p : string) : list string :=
  let cs := components (Clean p) in
  filter (λ a, a ≠ "") (map (λ k, join (take k cs)) (seq 1 (length cs))).

End path.

(** ** Package [time] *)

Module time.

(** A [time.Time] is kept as its Unix time in seconds; the process runs
    with the UTC location ([Format] renders in the zone of the process;
    only the names in the sample runs show which it is), and the years
    are those of four digits. *)
Definition Time : Type := Z.

Definition Unix (t : Time) : Z := t.

(** Proleptic Gregorian date of a day count since 1970-01-01. *)
Definition civil (days : Z) : Z * Z * Z :=
  let z := days + 719468 in
  let era := z / 146097 in
  let doe := z - era * 146097 in
  let yoe := (doe - doe / 1460 + doe / 36524 - doe / 146096) / 365 in
  let doy := doe - (365 * yoe + yoe / 4 - yoe / 100) in
  let mp := (5 * doy + 2) / 153 in
  let d := doy - (153 * mp + 2) / 5 + 1 in
  let m := if mp <? 10 then mp + 3 else mp - 9 in
  let y := yoe + era * 400 + (if m <=? 2 then 1 else 0) in
  (y, m, d).

Definition digit (n : Z) : ascii := ascii_of_nat (48 + Z.to_nat (n mod 10)).

Definition pad2 (n : Z) : string :=
  String (digit (n / 10)) (String (digit n) "").

Definition pad4 (n : Z) : string :=
  if n <? 0 then "-" +:+ pad2 (- n / 100) +:+ pad2 (- n)
  else pad2 (n / 100) +:+ pad2 n.

(** The layout elements that occur in the handler's suffixes. *)
Inductive chunk : Type :=
| stdLongYear | stdZeroMonth | stdZeroDay | stdHour | stdZeroMinute
| stdZeroSecond | literal (c : ascii).

Fixpoint chunks (fuel : nat) (layout : string) : list chunk :=
  match fuel with
  | O => []
  | S fuel' =>
      match layout with
      | "" => []
      | String "2" (String "0" (String "0" (String "6" r))) =>
          stdLongYear :: chunks fuel' r
      | String "0" (String "1" r) => stdZeroMonth :: chunks fuel' r
      | String "0" (String "2" r) => stdZeroDay :: chunks fuel' r
      | String "1" (String "5" r) => stdHour :: chunks fuel' r
      | String "0" (String "4" r) => stdZeroMinute :: chunks fuel' r
      | String "0" (String "5" r) => stdZeroSecond :: chunks fuel' r
      | String c r => literal c :: chunks fuel' r
      end
  end.

Definition render (t : Time) (c : chunk) : string :=
  let '(y, m, d) := civil (t / 86400) in
  let s := t mod 86400 in
  match c with
  | stdLongYear => pad4 y
  | stdZeroMonth => pad2 m
  | stdZeroDay => pad2 d
  | stdHour => pad2 (s / 3600)
  | stdZeroMinute => pad2 (s mod 3600 / 60)
  | stdZeroSecond => pad2 (s mod 60)
  | literal a => String a ""
  end.

(** [t.Format(layout)] for layouts made of the elements above. *)
Definition Format (t : Time) (layout : string) : string :=
  foldr (λ c acc, render t c +:+ acc) "" (chunks (String.length layout) layout).

End time.

(** ** Package [os]: the file system, the open files and the clock *)

Module os.

(** What the program asked of its environment, in order. *)
Inductive event : Type :=
| EvLock
| EvUnlock
| EvNow (t : Z)
| EvMkdirAll (dir : string) (err : option error)
| EvOpenFile (name : string) (res : nat + error)
| EvStat (f : option nat)
| EvClose (f : option nat) (err : option error)
| EvRename (old new : string) (err : option error)
| EvWrite (f : option nat) (b : list byte) (n : Z) (err : option error).

Record inode : Type := Inode { i_data : list byte; i_mtime : Z }.

Inductive node : Type := Dir | Reg (ino : nat).

#[global] Instance node_eq_dec : EqDecision node.
Proof. solve_decision. Defined.

(** An [os.File] object on the heap; the program holds [*os.File]
    pointers (addresses, [None] for nil).  [f_ino] is [None] once the
    file is closed. *)
Record File : Type := mkFile { f_name : string; f_ino : option nat }.

Record World : Type := mkWorld {
  nodes : gmap string node;       (* directory tree, keyed by cleaned path *)
  inodes : gmap nat inode;        (* contents of the regular files *)
  heap : gmap nat File;           (* the os.File objects *)
  free_inodes : nat;              (* names that can still be created *)
  free_bytes : nat;               (* data bytes that can still be written *)
  clock : nat → Z;                (* the n-th reading of the wall clock *)
  tick : nat;                     (* readings taken by time.Now so far *)
  trace : list event
}.

Definition set_nodes (f : gmap string node → gmap string node) (w : World) :=
  mkWorld (f (nodes w)) (inodes w) (heap w) (free_inodes w) (free_bytes w)
    (clock w) (tick w) (trace w).
Definition set_inodes (f : gmap nat inode → gmap nat inode) (w : World) :=
  mkWorld (nodes w) (f (inodes w)) (heap w) (free_inodes w) (free_bytes w)
    (clock w) (tick w) (trace w).
Definition set_heap (f : gmap nat File → gmap nat File) (w : World) :=
  mkWorld (nodes w) (inodes w) (f (heap w)) (free_inodes w) (free_bytes w)
    (clock w) (tick w) (trace w).
Definition set_free_inodes (n : nat) (w : World) :=
  mkWorld (nodes w) (inodes w) (heap w) n (free_bytes w)
    (clock w) (tick w) (trace w).
Definition set_free_bytes (n : nat) (w : World) :=
  mkWorld (nodes w) (inodes w) (heap w) (free_inodes w) n
    (clock w) (tick w) (trace w).
Definition set_tick (n : nat) (w : World) :=
  mkWorld (nodes w) (inodes w) (heap w) (free_inodes w) (free_bytes w)
    (clock w) n (trace w).
Definition log (e : event) (w : World) :=
  mkWorld (nodes w) (inodes w) (heap w) (free_inodes w) (free_bytes w)
    (clock w) (tick w) (trace w ++ [e]).

(** The time the kernel stamps on a file it touches now. *)
Definition kernel_time (w : World) : Z := clock w (tick w).

(** The root and the working directory always exist. *)
Definition is_dir (w : World) (p : string) : bool :=
  bool_decide (p = "/" ∨ p = ".") || bool_decide (nodes w !! p = Some Dir).

Fixpoint mkdirs (ds : list string) (w : World) : option errno * World :=
  match ds with
  | [] => (None, w)
  | d :: rest =>
      if is_dir w d then mkdirs rest w
      else match nodes w !! d, free_inodes w with
           | Some _, _ => (Some ENOTDIR, w)
           | None, O => (Some ENOSPC, w)
           | None, S k =>
               mkdirs rest (set_free_inodes k (set_nodes (insert d Dir) w))
           end
  end.

(** [os.MkdirAll(dir, 0777)]: creates the missing directories on the way
    to [dir] and [dir] itself.  As in the library, a failure is looked at
    again and is no error when [dir] is a directory all the same. *)
Definition MkdirAll (dir : string) (w : World) : option error * World :=
  let '(r, w') := mkdirs (path.ancestors dir) w in
  let err :=
    match r with
    | Some e => if is_dir w' dir then None else Some (PathError "mkdir" dir e)
    | None => None
    end in
  (err, log (EvMkdirAll dir err) w').

Definition new_File (name : string) (ino : nat) (w : World) : nat * World :=
  let f := fresh (dom (heap w)) in
  (f, set_heap (insert f (mkFile name (Some ino))) w).

(** [os.OpenFile(name, os.O_CREATE|os.O_WRONLY|os.O_APPEND, 0666)]: the
    directory of [name] has to exist; the file is created, empty, when it
    does not.  Names are looked up as [path.Clean] leaves them, which is
    what the kernel does with every name that has no [..] through a
    missing directory and is not empty. *)
Definition OpenFile (name : string) (w : World) : (nat + error) * World :=
  let key := path.Clean name in
  let fail e := (inr (PathError "open" name e), w) in
  let '(r, w') :=
    if negb (is_dir w (path.Dir name)) then
      fail (if nodes w !! path.Dir name is Some (Reg _) then ENOTDIR else ENOENT)
    else if is_dir w key then fail EISDIR
    else match nodes w !! key with
         | Some (Reg ino) =>
             if inodes w !! ino is Some _
             then let '(f, w1) := new_File name ino w in (inl f, w1)
             else fail EIO
         | Some Dir => fail EISDIR
         | None =>
             match free_inodes w with
             | O => fail ENOSPC
             | S k =>
                 let ino := fresh (dom (inodes w)) in
                 let w1 :=
                   set_free_inodes k
                     (set_inodes (insert ino (Inode [] (kernel_time w)))
                        (set_nodes (insert key (Reg ino)) w)) in
                 let '(f, w2) := new_File name ino w1 in (inl f, w2)
             end
         end in
  (r, log (EvOpenFile name r) w').

(** The inode behind a [*os.File], when it is open. *)
Definition open_ino (w : World) (f : option nat) : option nat :=
  h ← f; o ← heap w !! h; f_ino o.

(** [f.Close()]. *)
Definition Close (f : option nat) (w : World) : option error * World :=
  let '(err, w') :=
    match f with
    | None => (Some ErrInvalid, w)
    | Some h =>
        match heap w !! h with
        | None => (Some ErrInvalid, w)
        | Some (mkFile n None) => (Some (PathError "close" n ErrClosed), w)
        | Some (mkFile n (Some _)) =>
            (None, set_heap (insert h (mkFile n None)) w)
        end
    end in
  (err, log (EvClose f err) w').

(** [f.Stat()], of which the program reads [ModTime().Unix()] only. *)
Definition Stat (f : option nat) (w : World) : option Z * World :=
  (ino ← open_ino w f; i_mtime <$> inodes w !! ino, log (EvStat f) w).

(** [f.Write(b)] on a file opened with O_APPEND: the bytes go to the end
    of the file, as many of them as the device still takes. *)
Definition Write (f : option nat) (b : list byte) (w : World)
  : (Z * option error) * World :=
  let '(r, w') :=
    match f with
    | None => ((0, Some ErrInvalid), w)
    | Some h =>
        match heap w !! h with
        | None => ((0, Some ErrInvalid), w)
        | Some (mkFile n None) => ((0, Some (PathError "write" n ErrClosed)), w)
        | Some (mkFile n (Some ino)) =>
            match inodes w !! ino with
            | None => ((0, Some (PathError "write" n EBADF)), w)
            | Some i =>
                let k := Nat.min (length b) (free_bytes w) in
                let i' := Inode (i_data i ++ take k b) (kernel_time w) in
                let w1 :=
                  set_free_bytes (free_bytes w - k)
                    (set_inodes (insert ino i') w) in
                ((Z.of_nat k,
                  if decide (k = length b) then None
                  else Some (PathError "write" n ENOSPC)), w1)
            end
        end
    end in
  (r, log (EvWrite f b r.1 r.2) w').

(** Where a name ends up when [old] is renamed to [new]. *)
Definition move_path (old new k : string) : string :=
  if decide (k = old) then new
  else if String.prefix (old +:+ "/") k
       then new +:+ String.substring (String.length old)
                      (String.length k - String.length old) k
       else k.

(** [os.Rename(old, new)].  When [new] is a directory, Go looks at [old]
    before it refuses: a missing [old] is reported first. *)
Definition Rename (old new : string) (w : World) : option error * World :=
  let ko := path.Clean old in
  let kn := path.Clean new in
  let fail e := (Some (LinkError "rename" old new e), w) in
  let '(err, w') :=
    if is_dir w kn
    then fail (if nodes w !! ko is Some _ then EEXIST else ENOENT)
    else match nodes w !! ko with
         | None => fail ENOENT
         | Some n =>
             if negb (is_dir w (path.Dir new)) then fail ENOENT
             else match n with
                  | Reg _ =>
                      (None, set_nodes (λ m, <[kn := n]> (delete ko m)) w)
                  | Dir =>
                      if String.prefix (ko +:+ "/") kn then fail EINVAL
                      else (None,
                            set_nodes (λ m, kmap (move_path ko kn) (delete kn m)) w)
                  end
         end in
  (err, log (EvRename old new err) w').

(** [time.Now()]: the next reading of the clock. *)
Definition Now (w : World) : time.Time * World :=
  let t := clock w (tick w) in
  (t, log (EvNow t) (set_tick (S (tick w)) w)).

(** The bytes of the regular file at [name], if there is one. *)
Definition contents (w : World) (name : string) : option (list byte) :=
  match nodes w !! path.Clean name with
  | Some (Reg ino) => i_data <$> inodes w !! ino
  | _ => None
  end.

End os.

(** ** Package [fmt] *)

Module fmt.

Definition newline : byte := x0a.

(** [fmt.Fprintln(f, s)] with the single string operand [s]: one call of
    [f.Write] on [s] followed by a newline, whose results it returns. *)
Definition Fprintln (f : option nat) (s : list byte) (w : os.World)
  : (Z * option error) * os.World :=
  os.Write f (s ++ [newline]) w.

End fmt.

(** ** Running Go code: results, panics and blocked goroutines *)

(** A Go function run from a state either returns, or panics (the process
    ends, the state is what it was at that moment), or waits for a mutex
    that is held. *)
Inductive Outcome (S A : Type) : Type :=
| Val (a : A) (s : S)
| Panicked (e : error) (s : S)
| Blocked (s : S).
Arguments Val {S A} a s.
Arguments Panicked {S A} e s.
Arguments Blocked {S A} s.

Definition M (S A : Type) : Type := S → Outcome S A.

#[global] Instance M_ret {S} : MRet (M S) := λ A a s, Val a s.
#[global] Instance M_bind {S} : MBind (M S) := λ A B k m s,
  match m s with
  | Val a s' => k a s'
  | Panicked e s' => Panicked e s'
  | Blocked s' => Blocked s'
  end.

Definition panic {S A} (e : error) : M S A := λ s, Panicked e s.

(** The state an outcome leaves behind. *)
Definition final {S A} (o : Outcome S A) : S :=
  match o with Val _ s | Panicked _ s | Blocked s => s end.

(** A library call, which always returns. *)
Definition call {A} (f : os.World → A * os.World) : M os.World A :=
  λ w, let '(a, w') := f w in Val a w'.

(** ** The handler *)

Record TimeRotatingFileHandler : Type := mkHandler {
  fd : option nat;                 (* *os.File, None for nil *)
  baseName : string;
  interval : Z;                    (* int64 *)
  suffix : string;
  rolloverAt : Z;                  (* int64 *)
  mux : bool                       (* sync.Mutex: true while locked *)
}.

Definition set_fd (v : option nat) (h : TimeRotatingFileHandler) :=
  mkHandler v (baseName h) (interval h) (suffix h) (rolloverAt h) (mux h).
Definition set_baseName (v : string) (h : TimeRotatingFileHandler) :=
  mkHandler (fd h) v (interval h) (suffix h) (rolloverAt h) (mux h).
Definition set_interval (v : Z) (h : TimeRotatingFileHandler) :=
  mkHandler (fd h) (baseName h) v (suffix h) (rolloverAt h) (mux h).
Definition set_suffix (v : string) (h : TimeRotatingFileHandler) :=
  mkHandler (fd h) (baseName h) (interval h) v (rolloverAt h) (mux h).
Definition set_rolloverAt (v : Z) (h : TimeRotatingFileHandler) :=
  mkHandler (fd h) (baseName h) (interval h) (suffix h) v (mux h).
Definition set_mux (v : bool) (h : TimeRotatingFileHandler) :=
  mkHandler (fd h) (baseName h) (interval h) (suffix h) (rolloverAt h) v.

(** [new(TimeRotatingFileHandler)]: every field at its zero value. *)
Definition new_TimeRotatingFileHandler : TimeRotatingFileHandler :=
  mkHandler None "" 0 "" 0 false.

Definition WhenSecond : Z := 0.
Definition WhenMinute : Z := 1.
Definition WhenHour : Z := 2.
Definition WhenDay : Z := 3.

(** The [switch when] of the constructor: the base interval and the suffix
    layout of a granularity, [None] in the default case. *)
Definition when_case (when : Z) : option (Z * string) :=
  if when =? WhenSecond then Some (1, "2006-01-02_15-04-05")
  else if when =? WhenMinute then Some (60, "2006-01-02_15-04")
  else if when =? WhenHour then Some (3600, "2006-01-02_15")
  else if when =? WhenDay then Some (3600 * 24, "2006-01-02")
  else None.

(** [file, _ = os.OpenFile(...)]: the pointer, nil when the call failed. *)
Definition file_of (r : nat + error) : option nat :=
  match r with inl f => Some f | inr _ => None end.

Definition newLogHandler (baseName' : string) (when : Z) (interval' : Z)
  : M os.World (TimeRotatingFileHandler + error) :=
  let dir := path.Dir baseName' in
  _ ← call (os.MkdirAll dir);
  let h := new_TimeRotatingFileHandler in
  let h := set_baseName baseName' h in
  match when_case when with
  | None => mret (inr (InvalidWhenRotate when))
  | Some (base, layout) =>
      let h := set_suffix layout (set_interval base h) in
      let h := set_interval (int64_mul (interval h) interval') h in
      r ← call (os.OpenFile (baseName h));
      match r with
      | inr err => mret (inr err)
      | inl f =>
          let h := set_fd (Some f) h in
          fInfo ← call (os.Stat (fd h));
          match fInfo with
          | None => panic NilDereference
          | Some modTime =>
              let h := set_rolloverAt (int64_add modTime (interval h)) h in
              mret (inl h)
          end
      end
  end.

(** The handler object and the world it lives in. *)
Record State : Type := mkState { hdl : TimeRotatingFileHandler; world : os.World }.

(** A library call made from a method of the handler. *)
Definition sys {A} (f : os.World → A * os.World) : M State A :=
  λ s, let '(a, w') := f (world s) in Val a (mkState (hdl s) w').

Definition get_l : M State TimeRotatingFileHandler := λ s, Val (hdl s) s.

Definition modify_l (f : TimeRotatingFileHandler → TimeRotatingFileHandler)
  : M State unit :=
  λ s, Val () (mkState (f (hdl s)) (world s)).

(** [l.mux.Lock()] and [l.mux.Unlock()]. *)
Definition Lock : M State unit := λ s,
  if mux (hdl s) then Blocked s
  else Val () (mkState (set_mux true (hdl s)) (os.log os.EvLock (world s))).

Definition Unlock : M State unit := λ s,
  if mux (hdl s)
  then Val () (mkState (set_mux false (hdl s)) (os.log os.EvUnlock (world s)))
  else Panicked UnlockOfUnlockedMutex s.

Definition doRollover : M State unit :=
  now ← sys os.Now;
  l ← get_l;
  if rolloverAt l <=? time.Unix now then
    let fName := baseName l +:+ time.Format now (suffix l) in
    _ ← sys (os.Close (fd l));
    e ← sys (os.Rename (baseName l) fName);
    match e with
    | Some e => panic e
    | None =>
        r ← sys (os.OpenFile (baseName l));
        _ ← modify_l (set_fd (file_of r));
        now' ← sys os.Now;
        modify_l (λ l, set_rolloverAt (int64_add (time.Unix now') (interval l)) l)
    end
  else mret ().

Definition TimeRotatingFileHandler_Write (p : list byte) : M State (Z * option error) :=
  _ ← Lock;
  _ ← doRollover;
  _ ← Unlock;
  l ← get_l;
  sys (fmt.Fprintln (fd l) p).

Definition TimeRotatingFileHandler_Close : M State (option error) :=
  l ← get_l;
  sys (os.Close (fd l)).

(** The [Handler] interface and its implementation by the rotating
    handler. *)
Class Handler (St : Type) : Type := {
  Write : list byte → M St (Z * option error);
  Close : M St (option error)
}.

#[global] Instance TimeRotatingFileHandler_Handler : Handler State := {
  Write := TimeRotatingFileHandler_Write;
  Close := TimeRotatingFileHandler_Close
}.

(** ** The worker loop *)

Record ConfigStruct : Type := mkConfig {
  logPath : string;
  serverIp : string;
  serverPort : string;
  handledNum : Z;                  (* uint64 *)
  startTime : Z
}.

Definition incr_handledNum (c : ConfigStruct) : ConfigStruct :=
  mkConfig (logPath c) (serverIp c) (serverPort c)
    (wrap_uint64 (handledNum c + 1)) (startTime c).

(** [handleLog]: [logChannel] lists what this worker receives from the
    channel until it is closed. *)
Fixpoint handleLog {St : Type} `{Handler St} (logChannel : list (list byte))
  (c : ConfigStruct) : M St ConfigStruct :=
  match logChannel with
  | [] => mret c
  | json :: rest =>
      _ ← Write json;
      handleLog rest (incr_handledNum c)
  end.

(** ** The ingress endpoint *)

Module ingress.

(** A buffered channel of payloads. *)
Record Chan : Type := mkChan { buf : list (list byte); cap : nat }.

(** [workerNum := 2] and [make(chan []byte, workerNum)] of [main]. *)
Definition workerNum : nat := 2.
Definition make_chan : Chan := mkChan [] workerNum.

(** [channel <- data] goes through when the buffer has room and waits
    otherwise. *)
Definition send (data : list byte) (ch : Chan) : option Chan :=
  if decide (length (buf ch) < cap ch)%nat
  then Some (mkChan (buf ch ++ [data]) (cap ch))
  else None.

(** A worker's receive. *)
Definition recv (ch : Chan) : option (list byte * Chan) :=
  match buf ch with
  | [] => None
  | d :: rest => Some (d, mkChan rest (cap ch))
  end.

Record Response : Type := mkResponse {
  status : Z;
  body : list (string * string)        (* gin.H *)
}.

Definition StatusOK : Z := 200.

Definition JSON (code : Z) (obj : list (string * string)) : Response :=
  mkResponse code obj.

Inductive Result : Type :=
| Responded (r : Response) (ch : Chan)
| Sending (data : list byte).          (* parked on the channel send *)

(** The handler of POST /kong-log; [raw] is what [c.GetRawData()]
    returned. *)
Definition post_kong_log (raw : list byte * option error) (channel : Chan)
  : Result :=
  let '(data, err1) := raw in
  match err1 with
  | Some _ => Responded (JSON StatusOK [("status", "ok")]) channel
  | None =>
      match send data channel with
      | Some channel' => Responded (JSON StatusOK [("status", "ok")]) channel'
      | None => Sending data
      end
  end.

End ingress.


(** ** Vocabulary of the statements *)

(** The granularities by name, with the constant, the base interval in
    seconds and the suffix precision each one stands for. *)
Inductive granularity : Type := second | minute | hour | day.

Definition when_of (g : granularity) : Z :=
  match g with
  | second => WhenSecond
  | minute => WhenMinute
  | hour => WhenHour
  | day => WhenDay
  end.

Definition base_seconds (g : granularity) : Z :=
  match g with second => 1 | minute => 60 | hour => 3600 | day => 86400 end.

Definition layout_of (g : granularity) : string :=
  match g with
  | second => "2006-01-02_15-04-05"
  | minute => "2006-01-02_15-04"
  | hour => "2006-01-02_15"
  | day => "2006-01-02"
  end.

Definition valid_when (when : Z) : Prop := ∃ g, when = when_of g.

(** What a run added to the trace. *)
Definition new_events (w w' : os.World) : list os.event :=
  drop (length (os.trace w)) (os.trace w').

Definition is_Rename (e : os.event) : bool :=
  match e with os.EvRename _ _ _ => true | _ => false end.

(** The clock readings a call of [Write] takes: the one of the due check
    and, when a rollover follows, the one [rolloverAt] is computed from. *)
Definition reading (s : State) (k : nat) : Z :=
  os.clock (world s) (os.tick (world s) + k).

(** Two worlds that show the same clock, at the same reading. *)
Definition same_clock (w w' : os.World) : Prop :=
  os.clock w' = os.clock w ∧ os.tick w' = os.tick w.

(** The state with the mutex taken, and with the mutex released. *)
Definition locked (s : State) : State :=
  mkState (set_mux true (hdl s)) (os.log os.EvLock (world s)).

Definition unlocked (s : State) : State :=
  mkState (set_mux false (hdl s)) (os.log os.EvUnlock (world s)).

(** What the rollover arithmetic asks of a handler and its clock: a
    positive interval, a clock that never goes back, and readings that
    leave room for the interval in an [int64]. *)
Definition steady (s : State) : Prop :=
  1 <= interval (hdl s) ∧
  (∀ n, os.clock (world s) n <= os.clock (world s) (S n)) ∧
  (∀ n, in_int64 (os.clock (world s) n + interval (hdl s))).

(** A sequence of [Write] calls by one goroutine. *)
Fixpoint write_all (ps : list (list byte)) : M State unit :=
  match ps with
  | [] => mret ()
  | p :: rest => _ ← TimeRotatingFileHandler_Write p; write_all rest
  end.

(** The state in which [Write] appends: after [Lock], [doRollover] and
    [Unlock]. *)
Definition before_append : M State unit :=
  _ ← Lock; _ ← doRollover; Unlock.

(** The payloads as they stand in the file: each followed by a newline. *)
Definition lines (ps : list (list byte)) : list byte :=
  concat (map (λ p, p ++ [fmt.newline]) ps).

(** The name [doRollover] gives the rolled file at the reading [now]. *)
Definition rolled_name (l : TimeRotatingFileHandler) (now : time.Time) : string :=
  baseName l +:+ time.Format now (suffix l).

(** How many renames a run has made. *)
Definition renames (evs : list os.event) : nat :=
  length (filter (λ e, is_Rename e = true) evs).

(** A handler whose interval is not positive and whose rollover is due,
    with a clock that never goes back and readings that leave room for the
    interval in an [int64]. *)
Definition restless (s : State) : Prop :=
  mux (hdl s) = false ∧ interval (hdl s) <= 0 ∧
  rolloverAt (hdl s) <= reading s 0 ∧
  (∀ n, os.clock (world s) n <= os.clock (world s) (S n)) ∧
  (∀ n, in_int64 (os.clock (world s) n + interval (hdl s))).

(** ** Two goroutines inside [Write] *)

Module interleaving.

(** Where a goroutine stands in its call of [Write]; the numbers are the
    lines of main.go it is about to run. *)
Inductive pc : Type :=
| L93                                  (* l.mux.Lock() *)
| L76                                  (* now := time.Now() *)
| L78 (now : time.Time)                (* if l.rolloverAt <= now.Unix() *)
| L80 (fName : string)                 (* l.fd.Close() *)
| L81 (fName : string)                 (* e := os.Rename(l.baseName, fName) *)
| L86                                  (* l.fd, _ = os.OpenFile(...) *)
| L88                                  (* l.rolloverAt = time.Now().Unix() + ... *)
| L95                                  (* l.mux.Unlock() *)
| L96                                  (* return fmt.Fprintln(l.fd, string(p)) *)
| Returned (n : Z) (err : option error)
| Panic (e : error).

Definition goto {A} (next : A → pc) (o : Outcome State A) : option (pc * State) :=
  match o with
  | Val a s' => Some (next a, s')
  | Panicked e s' => Some (Panic e, s')
  | Blocked _ => None
  end.

(** One line of [Write p]; [None] when the goroutine cannot move (it waits
    for the mutex, or it is done). *)
Definition step (p : list byte) (at_ : pc) (s : State) : option (pc * State) :=
  let l := hdl s in
  match at_ with
  | L93 => goto (λ _, L76) (Lock s)
  | L76 => goto L78 (sys os.Now s)
  | L78 now =>
      Some (if rolloverAt l <=? time.Unix now
            then L80 (baseName l +:+ time.Format now (suffix l)) else L95, s)
  | L80 fName => goto (λ _, L81 fName) (sys (os.Close (fd l)) s)
  | L81 fName =>
      goto (λ _, L86)
        ((e ← sys (os.Rename (baseName l) fName);
          match e with Some e => panic e | None => mret () end) s)
  | L86 =>
      goto (λ _, L88)
        ((r ← sys (os.OpenFile (baseName l)); modify_l (set_fd (file_of r))) s)
  | L88 =>
      goto (λ _, L95)
        ((now' ← sys os.Now;
          modify_l (λ l, set_rolloverAt (int64_add (time.Unix now') (interval l)) l)) s)
  | L95 => goto (λ _, L96) (Unlock s)
  | L96 => goto (λ r, Returned r.1 r.2) (sys (fmt.Fprintln (fd l) p) s)
  | Returned _ _ | Panic _ => None
  end.

(** A goroutine running alone. *)
Fixpoint exec (fuel : nat) (p : list byte) (at_ : pc) (s : State) : pc * State :=
  match fuel with
  | O => (at_, s)
  | S fuel' =>
      match step p at_ s with
      | Some (at', s') => exec fuel' p at' s'
      | None => (at_, s)
      end
  end.

(** Two workers on the one handler, as [main] starts them. *)
Record Config : Type := mkConfig2 { shared : State; g1 : pc; g2 : pc }.

(** The scheduler lets the first ([true]) or the second goroutine run one
    line; a goroutine that cannot move stays where it is. *)
Definition sched_step (p1 p2 : list byte) (c : Config) (first : bool) : Config :=
  if first then
    match step p1 (g1 c) (shared c) with
    | Some (at', s') => mkConfig2 s' at' (g2 c)
    | None => c
    end
  else
    match step p2 (g2 c) (shared c) with
    | Some (at', s') => mkConfig2 s' (g1 c) at'
    | None => c
    end.

Definition run (p1 p2 : list byte) (sched : list bool) (c : Config) : Config :=
  fold_left (sched_step p1 p2) sched c.

End interleaving.

(** ** Two goroutines inside [handleLog] *)

(** The assignment to [c.handledNum]. *)
Definition set_handledNum (n : Z) (c : ConfigStruct) : ConfigStruct :=
  mkConfig (logPath c) (serverIp c) (serverPort c) n (startTime c).

Module pool.

(** Where a worker stands in [handleLog]; the numbers are the lines of
    main.go it is about to run.  [c.handledNum++] on line 178 is a read of
    the field and a write of what was read plus one; the program has
    nothing that makes the two one step (no mutex around them, no
    sync/atomic), so another goroutine can run between them.

    [writer.Write(json)] is taken as one step here: its own lines are those
    of [interleaving.step].  Every schedule of this machine is therefore a
    schedule of the program in which no two calls of [Write] overlap. *)
Inductive pc : Type :=
| L176                                 (* for json := range logChannel *)
| L177 (json : list byte)              (* writer.Write(json) *)
| L178                                 (* c.handledNum++ : the read *)
| L178' (n : Z)                        (* c.handledNum++ : the write *)
| Panic (e : error).

(** What [go handleLog(channel, handler, c)] gives every worker: the one
    channel, and pointers to the one handler and the one [ConfigStruct]. *)
Record Shared : Type := mkShared {
  logChannel : ingress.Chan;
  writer : State;
  c : ConfigStruct
}.

(** One line of [handleLog]; [None] when the worker cannot move: the
    channel is empty, the mutex of the writer is held, or the process has
    panicked. *)
Definition step (at_ : pc) (m : Shared) : option (pc * Shared) :=
  match at_ with
  | L176 =>
      match ingress.recv (logChannel m) with
      | Some (json, channel') => Some (L177 json, mkShared channel' (writer m) (c m))
      | None => None
      end
  | L177 json =>
      match Write json (writer m) with
      | Val _ s' => Some (L178, mkShared (logChannel m) s' (c m))
      | Panicked e s' => Some (Panic e, mkShared (logChannel m) s' (c m))
      | Blocked _ => None
      end
  | L178 => Some (L178' (handledNum (c m)), m)
  | L178' n =>
      Some (L176,
            mkShared (logChannel m) (writer m)
              (set_handledNum (wrap_uint64 (n + 1)) (c m)))
  | Panic _ => None
  end.

(** A worker running alone. *)
Fixpoint exec (fuel : nat) (at_ : pc) (m : Shared) : pc * Shared :=
  match fuel with
  | O => (at_, m)
  | S fuel' =>
      match step at_ m with
      | Some (at', m') => exec fuel' at' m'
      | None => (at_, m)
      end
  end.

(** The two workers [main] starts ([workerNum := 2]). *)
Record Config : Type := mkConfig2 { shared : Shared; g1 : pc; g2 : pc }.

(** The scheduler lets the first ([true]) or the second worker run one
    line; a worker that cannot move stays where it is. *)
Definition sched_step (k : Config) (first : bool) : Config :=
  if first then
    match step (g1 k) (shared k) with
    | Some (at', m') => mkConfig2 m' at' (g2 k)
    | None => k
    end
  else
    match step (g2 k) (shared k) with
    | Some (at', m') => mkConfig2 m' (g1 k) at'
    | None => k
    end.

Definition run (sched : list bool) (k : Config) : Config :=
  fold_left sched_step sched k.

End pool.

(** The writes a run has made, with their results. *)
Definition is_Write (e : os.event) : bool :=
  match e with os.EvWrite _ _ _ _ => true | _ => false end.

(** ** The endpoint and one worker *)

Module pipeline.

(** The goroutines that share the channel when [main] has started one
    worker: the handlers of the POST requests and the worker itself.  An
    action is one of them taking its turn: the handler of a request
    running to its response, or the worker receiving its next payload and
    going through the body of its loop. *)
Inductive action : Type :=
| Post (raw : list byte * option error)
| Work.

Inductive health : Type :=
| Up
| Down (e : error)                     (* ended by a panic *)
| Stuck.                               (* the worker waits for the mutex *)

Record Sys : Type := mkSys {
  channel : ingress.Chan;
  writer : State;
  c : ConfigStruct;
  state : health
}.

(** One turn; [None] when the goroutine cannot take it: the send waits
    for room, the worker for a payload, or nothing runs any more. *)
Definition act (a : action) (y : Sys) : option Sys :=
  match state y with
  | Up =>
      match a with
      | Post raw =>
          match ingress.post_kong_log raw (channel y) with
          | ingress.Responded _ channel' =>
              Some (mkSys channel' (writer y) (c y) Up)
          | ingress.Sending _ => None
          end
      | Work =>
          match ingress.recv (channel y) with
          | None => None
          | Some (json, channel') =>
              match handleLog [json] (c y) (writer y) with
              | Val c' s' => Some (mkSys channel' s' c' Up)
              | Panicked e s' => Some (mkSys channel' s' (c y) (Down e))
              | Blocked s' => Some (mkSys channel' s' (c y) Stuck)
              end
          end
      end
  | _ => None
  end.

Fixpoint run (sched : list action) (y : Sys) : option Sys :=
  match sched with
  | [] => Some y
  | a :: rest =>
      match act a y with
      | Some y1 => run rest y1
      | None => None
      end
  end.

(** The bodies that the requests of a schedule hand to the channel, and
    the number of turns the worker takes in it. *)
Definition bodies (sched : list action) : list (list byte) :=
  flat_map (λ a, match a with Post (data, None) => [data] | _ => [] end) sched.

Definition works (sched : list action) : nat :=
  length (filter (λ a, match a with Work => true | _ => false end = true) sched).

End pipeline.

(** ** Sample states *)

(** The log file /var/log/kong-log with [content], open as file 0, on a
    device with room for [inodes] more names. *)
Definition sample_world (clock : nat → Z) (inodes : nat) (content : list byte)
  : os.World :=
  os.mkWorld
    (<["/var/log/kong-log" := os.Reg 0]>
       (<["/var/log" := os.Dir]> (<["/var" := os.Dir]> ∅)))
    (<[0%nat := os.Inode content 1704103445]> ∅)
    (<[0%nat := os.mkFile "/var/log/kong-log" (Some 0%nat)]> ∅)
    inodes 4096 clock 0 [].

(** The same after somebody removed the log file: the handler still holds
    the open file, the name is gone. *)
Definition unlinked_world (clock : nat → Z) : os.World :=
  os.mkWorld
    (<["/var/log" := os.Dir]> (<["/var" := os.Dir]> ∅))
    (<[0%nat := os.Inode [] 1704103445]> ∅)
    (<[0%nat := os.mkFile "/var/log/kong-log" (Some 0%nat)]> ∅)
    8 4096 clock 0 [].

(** An hourly handler on that file. *)
Definition sample_handler (rolloverAt : Z) : TimeRotatingFileHandler :=
  mkHandler (Some 0%nat) "/var/log/kong-log" 3600 "2006-01-02_15" rolloverAt false.

(** A clock that shows [t] at the first reading and one second more at
    each reading after it. *)
Definition ticking (t : Z) : nat → Z := λ n, Z.of_nat n + t.

(** A clock that shows [t] at the first reading and [t + d] at every
    reading after it. *)
Definition jumping (t d : Z) : nat → Z :=
  λ n, match n with O => t | S _ => t + d end.

(** An empty file system. *)
Definition empty_world : os.World :=
  os.mkWorld ∅ ∅ ∅ 8 4096 (ticking 1704103445) 0 [].

(** The handler the constructor builds for /var/log/kong-log on the empty
    file system, with the world it leaves. *)
Definition constructed (when m : Z) : State :=
  match newLogHandler "/var/log/kong-log" when m empty_world with
  | Val (inl h) w => mkState h w
  | _ => mkState new_TimeRotatingFileHandler empty_world
  end.

(** * Properties *)

(** ** Machine integers *)

Lemma wrap_int64_id z : in_int64 z → wrap_int64 z = z.
Proof.
  unfold in_int64, min_int64, max_int64, wrap_int64. intros Hz.
  rewrite Z.mod_small; lia.
Qed.

Lemma wrap_int64_range z : in_int64 (wrap_int64 z).
Proof.
  unfold in_int64, min_int64, max_int64, wrap_int64.
  pose proof (Z.mod_pos_bound (z + 2 ^ 63) (2 ^ 64)). lia.
Qed.

Lemma wrap_uint64_add n k :
  wrap_uint64 (wrap_uint64 n + k) = wrap_uint64 (n + k).
Proof. unfold wrap_uint64. apply Zplus_mod_idemp_l. Qed.

(** ** What the library calls leave alone *)

Section os_frame.

Import os.

Lemma mkdirs_frame ds w :
  inodes (mkdirs ds w).2 = inodes w ∧ heap (mkdirs ds w).2 = heap w ∧
  trace (mkdirs ds w).2 = trace w ∧ same_clock w (mkdirs ds w).2 ∧
  free_bytes (mkdirs ds w).2 = free_bytes w.
Proof.
  revert w. induction ds as [|d ds IH]; intros w; simpl; [by repeat split|].
  destruct (is_dir w d); [apply IH|].
  destruct (nodes w !! d); [by repeat split|].
  destruct (free_inodes w); [by repeat split|].
  destruct (IH (set_free_inodes n (set_nodes (insert d Dir) w)))
    as (? & ? & ? & [? ?] & ?).
  by repeat split.
Qed.

(** [mkdirs] makes directories only: the regular files stay what they
    were. *)
Lemma mkdirs_regular ds w k ino :
  nodes (mkdirs ds w).2 !! k = Some (Reg ino) ↔ nodes w !! k = Some (Reg ino).
Proof.
  revert w. induction ds as [|d ds IH]; intros w; simpl; [done|].
  destruct (is_dir w d); [apply IH|].
  destruct (nodes w !! d) eqn:Hd; [done|].
  destruct (free_inodes w); [done|].
  rewrite IH. simpl. destruct (decide (d = k)) as [->|Hne].
  - rewrite lookup_insert_eq, Hd. split; intros; discriminate.
  - by rewrite lookup_insert_ne.
Qed.

Lemma MkdirAll_trace dir w :
  trace (MkdirAll dir w).2 = trace w ++ [EvMkdirAll dir (MkdirAll dir w).1].
Proof.
  unfold MkdirAll. destruct (mkdirs _ w) as [r w'] eqn:E. simpl.
  pose proof (mkdirs_frame (path.ancestors dir) w) as (_ & _ & Ht & _).
  rewrite E in Ht. simpl in Ht. by rewrite Ht.
Qed.

Lemma MkdirAll_frame dir w :
  inodes (MkdirAll dir w).2 = inodes w ∧ heap (MkdirAll dir w).2 = heap w ∧
  same_clock w (MkdirAll dir w).2 ∧
  ∀ k ino, nodes (MkdirAll dir w).2 !! k = Some (Reg ino) ↔
           nodes w !! k = Some (Reg ino).
Proof.
  unfold MkdirAll.
  pose proof (mkdirs_frame (path.ancestors dir) w) as (Hi & Hh & _ & Hc & _).
  pose proof (mkdirs_regular (path.ancestors dir) w) as Hr.
  destruct (mkdirs _ w) as [r w'] eqn:E. simpl in *.
  exact (conj Hi (conj Hh (conj Hc Hr))).
Qed.

(** A failed [MkdirAll] leaves no directory of that name. *)
Lemma MkdirAll_error dir w e :
  (MkdirAll dir w).1 = Some e → is_dir (MkdirAll dir w).2 dir = false.
Proof.
  unfold MkdirAll. destruct (mkdirs _ w) as [r w'] eqn:E. simpl.
  destruct r as [e'|]; [|done].
  destruct (is_dir w' dir) eqn:Hd; [done|]. intros _.
  unfold is_dir in *. simpl. done.
Qed.

Lemma OpenFile_trace name w :
  trace (OpenFile name w).2 = trace w ++ [EvOpenFile name (OpenFile name w).1].
Proof.
  unfold OpenFile, new_File.
  repeat case_match; simplify_eq/=; reflexivity.
Qed.

Lemma OpenFile_clock name w : same_clock w (OpenFile name w).2.
Proof.
  unfold OpenFile, new_File, same_clock.
  repeat case_match; simplify_eq/=; done.
Qed.

(** No file is opened where the directory is missing. *)
Lemma OpenFile_no_dir name w :
  is_dir w (path.Dir name) = false → ∃ e, (OpenFile name w).1 = inr e.
Proof. unfold OpenFile. intros ->. simpl. eauto. Qed.

Lemma OpenFile_error name w e :
  (OpenFile name w).1 = inr e → is_IOError e = true.
Proof.
  unfold OpenFile, new_File.
  repeat case_match; simplify_eq/=; intros; simplify_eq; done.
Qed.

Lemma OpenFile_error_shape name w e :
  (OpenFile name w).1 = inr e → ∃ en, e = PathError "open" name en.
Proof.
  unfold OpenFile, new_File.
  repeat case_match; simplify_eq/=; intros; simplify_eq; eauto.
Qed.

Lemma Close_trace f w :
  trace (Close f w).2 = trace w ++ [EvClose f (Close f w).1].
Proof. unfold Close. repeat case_match; simplify_eq/=; reflexivity. Qed.

Lemma Close_clock f w : same_clock w (Close f w).2.
Proof. unfold Close, same_clock. repeat case_match; simplify_eq/=; done. Qed.

Lemma Rename_trace old new w :
  trace (Rename old new w).2 = trace w ++ [EvRename old new (Rename old new w).1].
Proof. unfold Rename. repeat case_match; simplify_eq/=; reflexivity. Qed.

Lemma Rename_clock old new w : same_clock w (Rename old new w).2.
Proof. unfold Rename, same_clock. repeat case_match; simplify_eq/=; done. Qed.

Lemma Write_trace f b w :
  trace (Write f b w).2 =
  trace w ++ [EvWrite f b (Write f b w).1.1 (Write f b w).1.2].
Proof. unfold Write. repeat case_match; simplify_eq/=; reflexivity. Qed.

Lemma Write_clock f b w : same_clock w (Write f b w).2.
Proof. unfold Write, same_clock. repeat case_match; simplify_eq/=; done. Qed.

Lemma Now_clock w :
  clock (Now w).2 = clock w ∧ tick (Now w).2 = S (tick w) ∧
  (Now w).1 = clock w (tick w).
Proof. done. Qed.

End os_frame.

(** ** The methods, line by line *)

Lemma new_events_app w w' evs :
  os.trace w' = os.trace w ++ evs → new_events w w' = evs.
Proof. unfold new_events. intros ->. by rewrite drop_app_length. Qed.

(** [doRollover] written out: the library calls in the order of the
    source, each on the world its predecessor left. *)
Lemma doRollover_unfold s :
  doRollover s =
  let l := hdl s in
  let now := (os.Now (world s)).1 in
  let w1 := (os.Now (world s)).2 in
  if rolloverAt l <=? time.Unix now then
    let fName := baseName l +:+ time.Format now (suffix l) in
    let w2 := (os.Close (fd l) w1).2 in
    let w3 := (os.Rename (baseName l) fName w2).2 in
    match (os.Rename (baseName l) fName w2).1 with
    | Some e => Panicked e (mkState l w3)
    | None =>
        let r := (os.OpenFile (baseName l) w3).1 in
        let w4 := (os.OpenFile (baseName l) w3).2 in
        Val () (mkState
                  (set_rolloverAt (int64_add (os.Now w4).1 (interval l))
                     (set_fd (file_of r) l))
                  (os.Now w4).2)
    end
  else Val () (mkState l w1).
Proof.
  unfold doRollover, mbind, M_bind, sys, get_l, modify_l, mret, M_ret, panic.
  destruct (os.Now (world s)) as [now w1]. cbn [fst snd hdl world].
  destruct (rolloverAt (hdl s) <=? time.Unix now); cbn [fst snd hdl world];
    [|done].
  destruct (os.Close (fd (hdl s)) w1) as [ce w2]. cbn [fst snd hdl world].
  destruct (os.Rename _ _ w2) as [[e|] w3]; cbn [fst snd hdl world]; [done|].
  destruct (os.OpenFile _ w3) as [r w4]. cbn [fst snd hdl world].
  destruct (os.Now w4) as [now' w5]. done.
Qed.

(** The events of a rollover that is due, up to the rename. *)
Lemma doRollover_due_trace s :
  rolloverAt (hdl s) <= reading s 0 →
  let l := hdl s in
  let now := reading s 0 in
  ∃ cerr rerr rest,
    os.trace (world (final (doRollover s))) =
    os.trace (world s) ++
      os.EvNow now :: os.EvClose (fd l) cerr ::
      os.EvRename (baseName l) (baseName l +:+ time.Format now (suffix l)) rerr ::
      rest ∧
    (∀ e, rerr = Some e →
       doRollover s = Panicked e (final (doRollover s)) ∧ rest = [] ∧
       hdl (final (doRollover s)) = l) ∧
    (rerr = None →
     ∃ r, doRollover s = Val () (final (doRollover s)) ∧
          rest = [os.EvOpenFile (baseName l) r; os.EvNow (reading s 1)] ∧
          hdl (final (doRollover s)) =
          set_rolloverAt (int64_add (reading s 1) (interval l))
            (set_fd (file_of r) l) ∧
          ∀ e, r = inr e → ∃ en, e = PathError "open" (baseName l) en).
Proof.
  intros Hdue. cbv zeta. rewrite doRollover_unfold. cbv zeta.
  assert (Hnow : (os.Now (world s)).1 = reading s 0).
  { unfold reading. by rewrite Nat.add_0_r. }
  rewrite Hnow. unfold time.Unix. rewrite (proj2 (Z.leb_le _ _) Hdue).
  set (l := hdl s). set (now := reading s 0).
  set (w1 := (os.Now (world s)).2).
  set (fName := baseName l +:+ time.Format now (suffix l)).
  pose proof (Close_trace (fd l) w1) as Hc.
  pose proof (Close_clock (fd l) w1) as [Hcc Hct].
  set (w2 := (os.Close (fd l) w1).2) in *.
  pose proof (Rename_trace (baseName l) fName w2) as Hr.
  pose proof (Rename_clock (baseName l) fName w2) as [Hrc Hrt].
  set (w3 := (os.Rename (baseName l) fName w2).2) in *.
  exists (os.Close (fd l) w1).1, (os.Rename (baseName l) fName w2).1.
  destruct (os.Rename (baseName l) fName w2).1 as [e|] eqn:Ere.
  - exists []. cbn [final world hdl]. split.
    + rewrite Hr, Hc. subst w1 now. rewrite <- Hnow. cbn.
      by rewrite <- !app_assoc.
    + split; [intros e' [= <-]; done|done].
  - pose proof (OpenFile_trace (baseName l) w3) as Ho.
    pose proof (OpenFile_clock (baseName l) w3) as [Hoc Hot].
    pose proof (OpenFile_error_shape (baseName l) w3) as Hoe.
    set (w4 := (os.OpenFile (baseName l) w3).2) in *.
    assert (Hn : (os.Now w4).1 = reading s 1).
    { cbn. rewrite Hoc, Hot, Hrc, Hrt, Hcc, Hct. subst w1. cbn.
      unfold reading. by rewrite Nat.add_1_r. }
    exists [os.EvOpenFile (baseName l) (os.OpenFile (baseName l) w3).1;
            os.EvNow (reading s 1)].
    cbn [final world hdl]. split.
    + rewrite <- Hn. cbn. rewrite Ho, Hr, Hc. subst w1 now. rewrite <- Hnow.
      cbn. by rewrite <- !app_assoc.
    + split; [done|]. intros _. exists (os.OpenFile (baseName l) w3).1.
      by rewrite Hn.
Qed.

Lemma doRollover_not_due s :
  reading s 0 < rolloverAt (hdl s) →
  doRollover s = Val () (mkState (hdl s) (os.Now (world s)).2).
Proof.
  intros Hlt. rewrite doRollover_unfold. cbv zeta.
  unfold reading in Hlt. rewrite Nat.add_0_r in Hlt.
  change ((os.Now (world s)).1) with (os.clock (world s) (os.tick (world s))).
  unfold time.Unix. destruct (Z.leb_spec (rolloverAt (hdl s))
    (os.clock (world s) (os.tick (world s)))); [lia|done].
Qed.

(** ** The due check *)


(** ** [Write], line by line *)

(** [doRollover] assigns [fd] and [rolloverAt] and nothing else. *)
Lemma doRollover_keeps s :
  let l' := hdl (final (doRollover s)) in
  baseName l' = baseName (hdl s) ∧ interval l' = interval (hdl s) ∧
  suffix l' = suffix (hdl s) ∧ mux l' = mux (hdl s).
Proof.
  cbv zeta. rewrite doRollover_unfold. cbv zeta.
  repeat case_match; done.
Qed.

Lemma doRollover_never_blocks s s' : doRollover s ≠ Blocked s'.
Proof.
  rewrite doRollover_unfold. cbv zeta. repeat case_match; done.
Qed.

(** [Write] written out. *)
Lemma Write_unfold p s :
  TimeRotatingFileHandler_Write p s =
  if mux (hdl s) then Blocked s
  else match doRollover (locked s) with
       | Val _ s1 =>
           let r := fmt.Fprintln (fd (hdl s1)) p (world (unlocked s1)) in
           Val r.1 (mkState (set_mux false (hdl s1)) r.2)
       | Panicked e s1 => Panicked e s1
       | Blocked s1 => Blocked s1
       end.
Proof.
  unfold TimeRotatingFileHandler_Write, mbind, M_bind, Lock, Unlock, get_l, sys.
  destruct (mux (hdl s)) eqn:Hm; [done|]. fold (locked s).
  pose proof (doRollover_keeps (locked s)) as (_ & _ & _ & Hmux).
  destruct (doRollover (locked s)) as [[] s1|e s1|s1]; [|done|done].
  cbn [final locked hdl set_mux mux] in Hmux. rewrite Hmux.
  cbn [hdl world unlocked set_mux fd].
  by destruct (fmt.Fprintln _ _ _) as [r w'].
Qed.

Lemma set_mux_restore l :
  mux l = false → set_mux false (set_mux true l) = l.
Proof. destruct l. simpl. by intros ->. Qed.

(** A call that finds the rollover not due. *)
Lemma Write_not_due p s :
  mux (hdl s) = false → reading s 0 < rolloverAt (hdl s) →
  let w1 := os.log os.EvUnlock (os.Now (os.log os.EvLock (world s))).2 in
  TimeRotatingFileHandler_Write p s =
  Val (fmt.Fprintln (fd (hdl s)) p w1).1
      (mkState (hdl s) (fmt.Fprintln (fd (hdl s)) p w1).2).
Proof.
  intros Hm Hlt. cbv zeta. rewrite Write_unfold, Hm.
  rewrite doRollover_not_due by done.
  cbn [hdl world locked unlocked set_mux fd]. cbv zeta.
  by rewrite set_mux_restore.
Qed.

(** ** The append *)

(** A write that reports no error has put every byte at the end of the
    open file, and has touched nothing else. *)
Lemma os_Write_ok f b w n w' :
  os.Write f b w = ((n, None), w') →
  n = Z.of_nat (length b) ∧
  ∃ ino i,
    os.open_ino w f = Some ino ∧ os.inodes w !! ino = Some i ∧
    os.inodes w' =
      <[ino := os.Inode (os.i_data i ++ b) (os.kernel_time w)]> (os.inodes w) ∧
    os.nodes w' = os.nodes w ∧ os.heap w' = os.heap w.
Proof.
  unfold os.Write, os.open_ino. intros H.
  destruct f as [h|]; [|simplify_eq/=].
  destruct (os.heap w !! h) as [[name [ino|]]|] eqn:Hh; [|simplify_eq/=..].
  destruct (os.inodes w !! ino) as [i|] eqn:Hi; [|simplify_eq/=].
  cbn zeta in H. case_decide as Hk; [|simplify_eq/=].
  injection H as <- <-. split; [by rewrite Hk|].
  exists ino, i. cbn. rewrite Hh. cbn. by rewrite Hk, firstn_all.
Qed.

(** What any write, failed or not, does to the world: the bytes it reports
    as written are at the end of the open file; names, open files and every
    other file are as before. *)
Lemma os_Write_effect f b w :
  let n := (os.Write f b w).1.1 in
  let w' := (os.Write f b w).2 in
  os.nodes w' = os.nodes w ∧ os.heap w' = os.heap w ∧
  os.free_inodes w' = os.free_inodes w ∧
  (∀ ino, os.open_ino w f ≠ Some ino → os.inodes w' !! ino = os.inodes w !! ino) ∧
  (∀ ino i, os.open_ino w f = Some ino → os.inodes w !! ino = Some i →
     ∃ i', os.inodes w' !! ino = Some i' ∧
           os.i_data i' = os.i_data i ++ take (Z.to_nat n) b) ∧
  (os.open_ino w f = None → os.inodes w' = os.inodes w).
Proof.
  cbv zeta. unfold os.Write, os.open_ino.
  destruct f as [h|]; cbn; [|split_and!; done].
  destruct (os.heap w !! h) as [[name [ino|]]|] eqn:Hh; cbn;
    [|split_and!; done..].
  destruct (os.inodes w !! ino) as [i|] eqn:Hi; cbn.
  - split_and!; try done.
    + intros ino' Hne. rewrite lookup_insert_ne; [done|congruence].
    + intros ino' i0 [= <-] Hi0. rewrite Hi in Hi0. injection Hi0 as <-.
      rewrite lookup_insert_eq. eexists. split; [done|]. cbn.
      by rewrite Nat2Z.id.
  - split_and!; try done. intros ino' i0 [= <-] Hi0. congruence.
Qed.

Lemma before_append_unfold s :
  before_append s =
  if mux (hdl s) then Blocked s
  else match doRollover (locked s) with
       | Val _ s1 => Val () (unlocked s1)
       | Panicked e s1 => Panicked e s1
       | Blocked s1 => Blocked s1
       end.
Proof.
  unfold before_append, mbind, M_bind, Lock, Unlock.
  destruct (mux (hdl s)) eqn:Hm; [done|]. fold (locked s).
  pose proof (doRollover_keeps (locked s)) as (_ & _ & _ & Hmux).
  destruct (doRollover (locked s)) as [[] s1|e s1|s1]; [|done|done].
  cbn [final locked hdl set_mux mux] in Hmux. by rewrite Hmux.
Qed.

(** [Write] is [before_append] followed by the [Fprintln]. *)
Lemma Write_before_append p s :
  TimeRotatingFileHandler_Write p s =
  match before_append s with
  | Val _ s1 =>
      Val (fmt.Fprintln (fd (hdl s1)) p (world s1)).1
          (mkState (hdl s1) (fmt.Fprintln (fd (hdl s1)) p (world s1)).2)
  | Panicked e s1 => Panicked e s1
  | Blocked s1 => Blocked s1
  end.
Proof.
  rewrite Write_unfold, before_append_unfold.
  destruct (mux (hdl s)); [done|].
  by destruct (doRollover (locked s)) as [[] s1|e s1|s1].
Qed.

(** C9.  A [Write] of the payload [p] that returns no error has appended
    to the handler's open file the bytes of [p] followed by one newline,
    and nothing else: the file holds what it held when the append began,
    then [p], then the newline; no other file, no name and no open file
    changed in the append; and the count returned is [len(p) + 1]. *)
Theorem Write_appends_payload (p : list byte) (s : State) (n : Z) (s' : State) :
  TimeRotatingFileHandler_Write p s = Val (n, None) s' →
  n = Z.of_nat (length p) + 1 ∧
  ∃ s1 ino i,
    before_append s = Val () s1 ∧ hdl s' = hdl s1 ∧
    os.open_ino (world s1) (fd (hdl s1)) = Some ino ∧
    os.inodes (world s1) !! ino = Some i ∧
    os.inodes (world s') !! ino =
      Some (os.Inode (os.i_data i ++ p ++ [fmt.newline])
              (os.kernel_time (world s1))) ∧
    (∀ ino', ino' ≠ ino →
       os.inodes (world s') !! ino' = os.inodes (world s1) !! ino') ∧
    os.nodes (world s') = os.nodes (world s1) ∧
    os.heap (world s') = os.heap (world s1).
Proof.
  rewrite Write_before_append.
  destruct (before_append s) as [[] s1|e s1|s1]; [|done..].
  intros [= Hr Hs]. unfold fmt.Fprintln in *.
  destruct (os.Write (fd (hdl s1)) (p ++ [fmt.newline]) (world s1))
    as [[n0 err] w'] eqn:Hw.
  cbn in Hr. injection Hr as -> ->. subst s'. cbn [hdl world snd].
  apply os_Write_ok in Hw as (-> & ino & i & Ho & Hi & Hin & Hn & Hh).
  split; [rewrite length_app; cbn; lia|].
  exists s1, ino, i. split_and!; try done.
  - rewrite Hin. by rewrite lookup_insert_eq.
  - intros ino' Hne. rewrite Hin. by rewrite lookup_insert_ne.
Qed.

Lemma Write_appends_payload_witness :
  let s := mkState (sample_handler 1704107045)
             (sample_world (ticking 1704103445) 8 []) in
  let s' := final (TimeRotatingFileHandler_Write ["a"%byte] s) in
  2 = Z.of_nat (length ["a"%byte]) + 1 ∧
  ∃ s1 ino i,
    before_append s = Val () s1 ∧ hdl s' = hdl s1 ∧
    os.open_ino (world s1) (fd (hdl s1)) = Some ino ∧
    os.inodes (world s1) !! ino = Some i ∧
    os.inodes (world s') !! ino =
      Some (os.Inode (os.i_data i ++ ["a"%byte] ++ [fmt.newline])
              (os.kernel_time (world s1))) ∧
    (∀ ino', ino' ≠ ino →
       os.inodes (world s') !! ino' = os.inodes (world s1) !! ino') ∧
    os.nodes (world s') = os.nodes (world s1) ∧
    os.heap (world s') = os.heap (world s1).
Proof.
  cbv zeta.
  apply (Write_appends_payload ["a"%byte]
           (mkState (sample_handler 1704107045)
              (sample_world (ticking 1704103445) 8 []))
           2
           (final (TimeRotatingFileHandler_Write ["a"%byte]
                     (mkState (sample_handler 1704107045)
                        (sample_world (ticking 1704103445) 8 []))))).
  vm_compute. reflexivity.
Defined.

(** ** A call that finds the rollover not due *)

(** C10.  A [Write] called with the mutex free at a clock reading [now]
    with [rolloverAt > now] returns, and leaves the handler as it was:
    [fd], [baseName], [interval], [suffix] and [rolloverAt] (and the mutex,
    free again).  Its calls are the lock, the clock reading, the unlock
    and one write of the payload and a newline to the handler's file; in
    the file system the bytes reported as written are at the end of that
    file and nothing else differs: the same names, the same open files,
    every other file unchanged. *)
Theorem Write_not_due_frame (p : list byte) (s : State) :
  mux (hdl s) = false →
  reading s 0 < rolloverAt (hdl s) →
  ∃ n err s',
    TimeRotatingFileHandler_Write p s = Val (n, err) s' ∧
    hdl s' = hdl s ∧
    new_events (world s) (world s') =
      [os.EvLock; os.EvNow (reading s 0); os.EvUnlock;
       os.EvWrite (fd (hdl s)) (p ++ [fmt.newline]) n err] ∧
    os.nodes (world s') = os.nodes (world s) ∧
    os.heap (world s') = os.heap (world s) ∧
    os.free_inodes (world s') = os.free_inodes (world s) ∧
    (∀ ino, os.open_ino (world s) (fd (hdl s)) ≠ Some ino →
       os.inodes (world s') !! ino = os.inodes (world s) !! ino) ∧
    (∀ ino i, os.open_ino (world s) (fd (hdl s)) = Some ino →
       os.inodes (world s) !! ino = Some i →
       ∃ i', os.inodes (world s') !! ino = Some i' ∧
             os.i_data i' =
             os.i_data i ++ take (Z.to_nat n) (p ++ [fmt.newline])).
Proof.
  intros Hm Hlt. rewrite (Write_not_due p s Hm Hlt). cbv zeta.
  unfold fmt.Fprintln.
  set (w1 := os.log os.EvUnlock (os.Now (os.log os.EvLock (world s))).2).
  set (b := p ++ [fmt.newline]).
  pose proof (os_Write_effect (fd (hdl s)) b w1) as He. cbv zeta in He.
  pose proof (Write_trace (fd (hdl s)) b w1) as Ht.
  destruct (os.Write (fd (hdl s)) b w1) as [[n err] w'] eqn:Hw.
  cbn [fst snd] in *. destruct He as (Hn & Hh & Hf & Ho & Hi & _).
  exists n, err, (mkState (hdl s) w'). cbn [hdl world].
  split_and!; try done.
  apply new_events_app. rewrite Ht. subst w1. cbn.
  unfold reading. rewrite Nat.add_0_r. by rewrite <- !app_assoc.
Qed.

Lemma Write_not_due_frame_witness :
  let s := mkState (sample_handler 1704107045)
             (sample_world (ticking 1704103445) 8 []) in
  ∃ n err s',
    TimeRotatingFileHandler_Write ["a"%byte] s = Val (n, err) s' ∧
    hdl s' = hdl s ∧
    new_events (world s) (world s') =
      [os.EvLock; os.EvNow (reading s 0); os.EvUnlock;
       os.EvWrite (fd (hdl s)) (["a"%byte] ++ [fmt.newline]) n err] ∧
    os.nodes (world s') = os.nodes (world s) ∧
    os.heap (world s') = os.heap (world s) ∧
    os.free_inodes (world s') = os.free_inodes (world s) ∧
    (∀ ino, os.open_ino (world s) (fd (hdl s)) ≠ Some ino →
       os.inodes (world s') !! ino = os.inodes (world s) !! ino) ∧
    (∀ ino i, os.open_ino (world s) (fd (hdl s)) = Some ino →
       os.inodes (world s) !! ino = Some i →
       ∃ i', os.inodes (world s') !! ino = Some i' ∧
             os.i_data i' =
             os.i_data i ++ take (Z.to_nat n) (["a"%byte] ++ [fmt.newline])).
Proof.
  cbv zeta.
  apply (Write_not_due_frame ["a"%byte]
           (mkState (sample_handler 1704107045)
              (sample_world (ticking 1704103445) 8 []))).
  - reflexivity.
  - vm_compute. reflexivity.
Defined.

(** ** The constructor *)

Lemma when_case_of g : when_case (when_of g) = Some (base_seconds g, layout_of g).
Proof. by destruct g. Qed.

Lemma when_case_None when : when_case when = None ↔ ¬ valid_when when.
Proof.
  unfold when_case, valid_when, WhenSecond, WhenMinute, WhenHour, WhenDay.
  split.
  - intros H [g ->]. by destruct g.
  - intros H. repeat case_match; try done; exfalso; apply H.
    + exists second. cbn. unfold WhenSecond. lia.
    + exists minute. cbn. unfold WhenMinute. lia.
    + exists hour. cbn. unfold WhenHour. lia.
    + exists day. cbn. unfold WhenDay. lia.
Qed.

Lemma when_case_Some when x : when_case when = Some x → valid_when when.
Proof.
  intros H. destruct (decide (0 <= when <= 3)) as [Hr|Hr].
  - assert (when = 0 ∨ when = 1 ∨ when = 2 ∨ when = 3) as [->|[->|[->| ->]]]
      by lia; [by exists second|by exists minute|by exists hour|by exists day].
  - unfold when_case, WhenSecond, WhenMinute, WhenHour, WhenDay in H.
    repeat case_match; try done; lia.
Qed.

(** A file that was just opened can be asked for its modification time. *)
Lemma OpenFile_Stat name w f :
  (os.OpenFile name w).1 = inl f →
  ∃ modTime, (os.Stat (Some f) (os.OpenFile name w).2).1 = Some modTime.
Proof.
  unfold os.OpenFile, os.new_File, os.Stat, os.open_ino.
  repeat case_match; simplify_eq/=; intros; simplify_eq/=;
    rewrite lookup_insert_eq; cbn; rewrite ?lookup_insert_eq; cbn; eauto.
  match goal with H : os.inodes w !! _ = Some _ |- _ => rewrite H end.
  cbn. eauto.
Qed.

(** [newLogHandler] written out. *)
Lemma newLogHandler_unfold name when m w :
  newLogHandler name when m w =
  let w1 := (os.MkdirAll (path.Dir name) w).2 in
  match when_case when with
  | None => Val (inr (InvalidWhenRotate when)) w1
  | Some (base, layout) =>
      let w2 := (os.OpenFile name w1).2 in
      match (os.OpenFile name w1).1 with
      | inr err => Val (inr err) w2
      | inl f =>
          match (os.Stat (Some f) w2).1 with
          | None => Panicked NilDereference (os.Stat (Some f) w2).2
          | Some modTime =>
              Val (inl (mkHandler (Some f) name (int64_mul base m) layout
                          (int64_add modTime (int64_mul base m)) false))
                (os.Stat (Some f) w2).2
          end
      end
  end.
Proof.
  unfold newLogHandler, mbind, M_bind, call, mret, M_ret, panic.
  destruct (os.MkdirAll (path.Dir name) w) as [e w1]. cbn [fst snd].
  destruct (when_case when) as [[base layout]|]; [|done].
  cbn [baseName set_suffix set_interval set_baseName new_TimeRotatingFileHandler].
  destruct (os.OpenFile name w1) as [[f|err] w2]; cbn [fst snd]; [|done].
  cbn [fd set_fd]. destruct (os.Stat (Some f) w2) as [[mt|] w3]; done.
Qed.

(** C8.  For each of the four granularities and every multiplier [m], a
    handler the constructor returns has [interval = base * m] computed in
    [int64], where [base] is 1, 60, 3600 or 86400 seconds for second,
    minute, hour and day: the product itself whenever it fits in 64 bits,
    the product wrapped around otherwise.  Its suffix layout has the
    precision of the granularity: "2006-01-02" for day, then "_15", "-04"
    and "-05" added for hour, minute and second.  The constructor fails
    only when the open of the file does, and never panics. *)
Theorem newLogHandler_interval_suffix
  (g : granularity) (m : Z) (name : string) (w : os.World) :
  match newLogHandler name (when_of g) m w with
  | Val (inl h) _ =>
      interval h = wrap_int64 (base_seconds g * m) ∧
      (in_int64 (base_seconds g * m) → interval h = base_seconds g * m) ∧
      suffix h = layout_of g ∧ baseName h = name
  | Val (inr e) _ =>
      (os.OpenFile name (os.MkdirAll (path.Dir name) w).2).1 = inr e
  | Panicked _ _ | Blocked _ => False
  end.
Proof.
  rewrite newLogHandler_unfold, when_case_of. cbv zeta.
  set (w1 := (os.MkdirAll (path.Dir name) w).2).
  destruct (os.OpenFile name w1).1 as [f|err] eqn:Ho; [|done].
  destruct (OpenFile_Stat name w1 f Ho) as [mt ->].
  cbn [interval suffix baseName]. unfold int64_mul.
  split_and!; try done. intros Hfit. by apply wrap_int64_id.
Qed.

(** The claim without the wrap-around fails: a minute handler with the
    largest multiplier an [int] holds gets the interval -60. *)
Lemma newLogHandler_interval_wraps :
  ∃ h w',
    newLogHandler "/var/log/kong-log" (when_of minute) (2 ^ 63 - 1) empty_world
    = Val (inl h) w' ∧
    interval h = -60 ∧
    interval h ≠ base_seconds minute * (2 ^ 63 - 1).
Proof.
  exists (mkHandler (Some 0%nat) "/var/log/kong-log" (-60) "2006-01-02_15-04"
            1704103385 false),
         (final (newLogHandler "/var/log/kong-log" (when_of minute)
                   (2 ^ 63 - 1) empty_world)).
  split; [vm_compute; reflexivity|].
  split; [reflexivity|]. vm_compute. discriminate.
Qed.

(** C4.  The constructor always returns, and it returns an error exactly
    when the granularity is none of second, minute, hour and day, or the
    parent directory cannot be created, or the file cannot be opened.  The
    first error is the configuration error, any other is an I/O error: the
    result of [MkdirAll] is dropped, but where the directory could not be
    made the open fails as well and its error is the one returned.  With an
    invalid granularity the directory has already been ensured when the
    constructor returns, [MkdirAll] being the one call made; no file has
    been opened or created: the regular files, their contents and the open
    files are those of before. *)
Theorem newLogHandler_errors (name : string) (when m : Z) (w : os.World) :
  let mk := os.MkdirAll (path.Dir name) w in
  let op := os.OpenFile name mk.2 in
  ∃ r w',
    newLogHandler name when m w = Val r w' ∧
    ((∃ e, r = inr e) ↔
     (¬ valid_when when ∨ is_Some mk.1 ∨ ∃ e, op.1 = inr e)) ∧
    (valid_when when → ∀ e, r = inr e → op.1 = inr e ∧ is_IOError e = true) ∧
    (¬ valid_when when →
     r = inr (InvalidWhenRotate when) ∧
     is_ConfigError (InvalidWhenRotate when) = true ∧
     new_events w w' = [os.EvMkdirAll (path.Dir name) mk.1] ∧
     os.inodes w' = os.inodes w ∧ os.heap w' = os.heap w ∧
     ∀ k ino, os.nodes w' !! k = Some (os.Reg ino) ↔
              os.nodes w !! k = Some (os.Reg ino)).
Proof.
  cbv zeta. rewrite newLogHandler_unfold. cbv zeta.
  pose proof (MkdirAll_trace (path.Dir name) w) as Ht.
  pose proof (MkdirAll_frame (path.Dir name) w) as (Hi & Hh & _ & Hreg).
  pose proof (MkdirAll_error (path.Dir name) w) as Herr.
  set (w1 := (os.MkdirAll (path.Dir name) w).2) in *.
  assert (Hmk : is_Some (os.MkdirAll (path.Dir name) w).1 →
                ∃ e, (os.OpenFile name w1).1 = inr e).
  { intros [e He]. apply OpenFile_no_dir. eapply Herr, He. }
  destruct (when_case when) as [[base layout]|] eqn:Hw.
  - assert (Hv : valid_when when) by (by eapply when_case_Some).
    destruct (os.OpenFile name w1).1 as [f|err] eqn:Ho.
    + destruct (OpenFile_Stat name w1 f Ho) as [mt ->].
      eexists _, _. split; [done|]. split_and!.
      * split; [intros [e [=]]|]. intros [Hn|[Hs|[e [=]]]]; [done|].
        destruct (Hmk Hs) as [e [=]].
      * intros _ e [=].
      * done.
    + eexists _, _. split; [done|]. split_and!.
      * split; [eauto|]. eauto.
      * intros _ e [= <-]. split; [done|]. by eapply OpenFile_error.
      * done.
  - apply when_case_None in Hw.
    eexists _, _. split; [done|]. split_and!.
    + split; eauto.
    + done.
    + intros _. split_and!; try done. by apply new_events_app.
Qed.

(** With an invalid granularity the constructor has nevertheless made the
    directories: on an empty file system /var and /var/log exist when it
    returns its error. *)
Lemma newLogHandler_invalid_makes_directory :
  ∃ w',
    newLogHandler "/var/log/kong-log" 9 1 empty_world
    = Val (inr (InvalidWhenRotate 9)) w' ∧
    ¬ valid_when 9 ∧
    os.nodes empty_world !! "/var/log" = None ∧
    os.nodes w' !! "/var/log" = Some os.Dir ∧
    os.trace w' = [os.EvMkdirAll "/var/log" None] ∧
    os.contents w' "/var/log/kong-log" = None.
Proof.
  exists (final (newLogHandler "/var/log/kong-log" 9 1 empty_world)).
  split_and!; try (vm_compute; reflexivity).
  intros [g Hg]. destruct g; discriminate.
Qed.

(** ** The four ways a call of [Write] can go *)

Lemma Fprintln_nil p w :
  (fmt.Fprintln None p w).1 = (0, Some ErrInvalid).
Proof. done. Qed.

Lemma Write_cases p s :
  let l := hdl s in
  let o := TimeRotatingFileHandler_Write p s in
  let evs := new_events (world s) (world (final o)) in
  let fName := baseName l +:+ time.Format (reading s 0) (suffix l) in
  (* the mutex is held: the goroutine waits *)
  (mux l = true ∧ o = Blocked s ∧ evs = []) ∨
  (* not due *)
  (mux l = false ∧ reading s 0 < rolloverAt l ∧
   ∃ n err, o = Val (n, err) (final o) ∧ hdl (final o) = l ∧
     evs = [os.EvLock; os.EvNow (reading s 0); os.EvUnlock;
            os.EvWrite (fd l) (p ++ [fmt.newline]) n err]) ∨
  (* due, the rename fails *)
  (mux l = false ∧ rolloverAt l <= reading s 0 ∧
   ∃ cerr e, o = Panicked e (final o) ∧ hdl (final o) = set_mux true l ∧
     evs = [os.EvLock; os.EvNow (reading s 0); os.EvClose (fd l) cerr;
            os.EvRename (baseName l) fName (Some e)]) ∨
  (* due, the file is renamed *)
  (mux l = false ∧ rolloverAt l <= reading s 0 ∧
   ∃ cerr r n err, o = Val (n, err) (final o) ∧
     hdl (final o) =
       set_rolloverAt (int64_add (reading s 1) (interval l))
         (set_fd (file_of r) l) ∧
     evs = [os.EvLock; os.EvNow (reading s 0); os.EvClose (fd l) cerr;
            os.EvRename (baseName l) fName None;
            os.EvOpenFile (baseName l) r; os.EvNow (reading s 1);
            os.EvUnlock;
            os.EvWrite (file_of r) (p ++ [fmt.newline]) n err] ∧
     ∀ e, r = inr e →
          (∃ en, e = PathError "open" (baseName l) en) ∧
          n = 0 ∧ err = Some ErrInvalid).
Proof.
  cbv zeta. destruct (mux (hdl s)) eqn:Hm.
  { left. rewrite Write_unfold, Hm. split_and!; try done.
    unfold new_events. cbn. by rewrite drop_all. }
  right.
  destruct (Z.le_gt_cases (rolloverAt (hdl s)) (reading s 0)) as [Hdue|Hlt].
  2:{ left. split_and!; try done; try lia.
      rewrite (Write_not_due p s Hm) by lia. cbv zeta. unfold fmt.Fprintln.
      set (w1 := os.log os.EvUnlock (os.Now (os.log os.EvLock (world s))).2).
      pose proof (Write_trace (fd (hdl s)) (p ++ [fmt.newline]) w1) as Ht.
      destruct (os.Write (fd (hdl s)) (p ++ [fmt.newline]) w1)
        as [[n err] w'] eqn:Hw.
      exists n, err. cbn [final hdl world fst snd] in *. split_and!; try done.
      apply new_events_app. rewrite Ht. subst w1. cbn.
      unfold reading. rewrite Nat.add_0_r. by rewrite <- !app_assoc. }
  right.
  destruct (doRollover_due_trace (locked s)) as (cerr & rerr & rest & Ht & Hp & Hv);
    [done|].
  cbv zeta in *. change (reading (locked s) 0) with (reading s 0) in *.
  change (reading (locked s) 1) with (reading s 1) in *.
  cbn [locked hdl world set_mux fd baseName suffix interval] in Ht, Hp, Hv.
  rewrite Write_unfold, Hm.
  destruct rerr as [e|].
  - left. destruct (Hp e eq_refl) as (Hd & -> & Hh). rewrite Hd.
    split_and!; try done. exists cerr, e. cbn [final]. split_and!; try done.
    apply new_events_app. rewrite Ht. cbn. by rewrite <- app_assoc.
  - right. destruct (Hv eq_refl) as (r & Hd & -> & Hh & Hio). rewrite Hd.
    split_and!; try done. cbv zeta.
    set (s1 := final (doRollover (locked s))) in *.
    pose proof (Write_trace (fd (hdl s1)) (p ++ [fmt.newline]) (world (unlocked s1)))
      as Hw.
    unfold fmt.Fprintln.
    destruct (os.Write (fd (hdl s1)) (p ++ [fmt.newline]) (world (unlocked s1)))
      as [[n err] w'] eqn:Hwr.
    exists cerr, r, n, err. cbn [final hdl world fst snd] in *.
    assert (Hfd : fd (hdl s1) = file_of r) by (by rewrite Hh).
    split_and!; try done.
    + rewrite Hh. destruct (hdl s). cbn in *. by subst.
    + apply new_events_app. rewrite Hw. cbn. rewrite Ht, Hfd. cbn.
      by rewrite <- !app_assoc.
    + intros e ->. split; [by apply Hio|].
      rewrite Hfd in Hwr. cbn in Hwr. by injection Hwr as <- <- _.
Qed.

(** ** Failures during a rollover *)

(** Finds an event in a list written out: the goals left are those where
    the event can be the list's. *)
Ltac pick_event H :=
  rewrite ?elem_of_cons, ?elem_of_nil in H;
  repeat (destruct H as [H|H]; [try discriminate H|]);
  try contradiction.

(** C2.  A [Write] whose rollover fails in the rename of the base name
    does not return the error: it panics with it, the mutex still locked,
    the old file closed and [rolloverAt] as it was.  This is the one way
    [Write] panics: a panic of [Write] is that of a due rollover whose
    rename, the last call made, failed with the error of the panic. *)
Theorem Write_rename_failure_panics (p : list byte) (s : State) :
  let l := hdl s in
  let o := TimeRotatingFileHandler_Write p s in
  let evs := new_events (world s) (world (final o)) in
  (∀ old new e, os.EvRename old new (Some e) ∈ evs →
     o = Panicked e (final o) ∧
     rolloverAt l <= reading s 0 ∧
     old = baseName l ∧
     rolloverAt (hdl (final o)) = rolloverAt l ∧
     mux (hdl (final o)) = true) ∧
  (∀ e s', o = Panicked e s' →
     rolloverAt l <= reading s 0 ∧
     ∃ cerr,
       evs = [os.EvLock; os.EvNow (reading s 0); os.EvClose (fd l) cerr;
              os.EvRename (baseName l)
                (baseName l +:+ time.Format (reading s 0) (suffix l)) (Some e)]).
Proof.
  cbv zeta.
  destruct (Write_cases p s)
    as [(_ & Hb & Hev)|[(_ & _ & n & err & Hv & _ & Hev)|
        [(_ & Hdue & cerr & e0 & Ho & Hh & Hev)|
         (_ & Hdue & cerr & r & n & err & Hv & Hh & Hev & Hr)]]];
    cbv zeta in *; rewrite Hev.
  - split; [intros old new e Hin; by rewrite elem_of_nil in Hin|].
    intros e s' Ho. congruence.
  - split; [intros old new e Hin; pick_event Hin|].
    intros e s' Ho. congruence.
  - split.
    + intros old new e Hin. pick_event Hin.
      injection Hin as -> -> ->. rewrite Hh. by split_and!.
    + intros e s' Ho'. rewrite Ho' in Ho. injection Ho as ->.
      split; [done|]. by exists cerr.
  - split; [intros old new e Hin; pick_event Hin|].
    intros e s' Ho. congruence.
Qed.

(** The rename error does not come back as the result of [Write]: with
    the log file removed under the handler the rename fails and [Write]
    panics. *)
Lemma Write_rename_error_not_returned :
  ∃ e s',
    TimeRotatingFileHandler_Write ["a"%byte]
      (mkState (sample_handler 1704103445)
         (unlinked_world (ticking 1704103445)))
    = Panicked e s' ∧
    e = LinkError "rename" "/var/log/kong-log"
          "/var/log/kong-log2024-01-01_10" ENOENT ∧
    os.EvRename "/var/log/kong-log" "/var/log/kong-log2024-01-01_10" (Some e)
      ∈ os.trace (world s').
Proof.
  exists (LinkError "rename" "/var/log/kong-log"
            "/var/log/kong-log2024-01-01_10" ENOENT),
         (final (TimeRotatingFileHandler_Write ["a"%byte]
                   (mkState (sample_handler 1704103445)
                      (unlinked_world (ticking 1704103445))))).
  split_and!; [vm_compute; reflexivity|reflexivity|].
  vm_compute. do 3 apply list_elem_of_further. apply list_elem_of_here.
Qed.

(** The reopen is another matter.  The constructor checks the error of its
    [os.OpenFile]; [doRollover] assigns the error of the same call to the
    blank identifier.  After a failed reopen [fd] is nil, [rolloverAt] is
    advanced all the same, and [Write] returns 0 and [os.ErrInvalid], the
    error of the append to the nil file. *)
Lemma Write_reopen_failure_dropped (p : list byte) (s : State) :
  let o := TimeRotatingFileHandler_Write p s in
  let evs := new_events (world s) (world (final o)) in
  ∀ name e, os.EvOpenFile name (inr e) ∈ evs →
    o = Val (0, Some ErrInvalid) (final o) ∧
    rolloverAt (hdl s) <= reading s 0 ∧
    name = baseName (hdl s) ∧
    e ≠ ErrInvalid ∧
    fd (hdl (final o)) = None ∧
    rolloverAt (hdl (final o)) = int64_add (reading s 1) (interval (hdl s)).
Proof.
  cbv zeta. intros name e Hin.
  destruct (Write_cases p s)
    as [(_ & _ & Hev)|[(_ & _ & n & err & _ & _ & Hev)|
        [(_ & Hdue & cerr & e0 & Ho & Hh & Hev)|
         (_ & Hdue & cerr & r & n & err & Ho & Hh & Hev & Hr)]]];
    cbv zeta in *; rewrite Hev in Hin; clear Hev.
  - by rewrite elem_of_nil in Hin.
  - pick_event Hin.
  - pick_event Hin.
  - pick_event Hin. injection Hin as -> <-.
    destruct (Hr e eq_refl) as ([en ->] & -> & ->). rewrite Hh.
    by split_and!.
Qed.

(** On a device that has no room for a new name the reopen fails, and
    [Write] returns the error of writing to a nil file. *)
Lemma Write_reopen_failure_example :
  ∃ e s',
    TimeRotatingFileHandler_Write ["a"%byte]
      (mkState (sample_handler 1704103445)
         (sample_world (ticking 1704103445) 0 []))
    = Val (0, Some ErrInvalid) s' ∧
    e = PathError "open" "/var/log/kong-log" ENOSPC ∧
    os.EvOpenFile "/var/log/kong-log" (inr e) ∈ os.trace (world s') ∧
    fd (hdl s') = None.
Proof.
  exists (PathError "open" "/var/log/kong-log" ENOSPC),
         (final (TimeRotatingFileHandler_Write ["a"%byte]
                   (mkState (sample_handler 1704103445)
                      (sample_world (ticking 1704103445) 0 [])))).
  split_and!; [vm_compute; reflexivity|reflexivity| |vm_compute; reflexivity].
  vm_compute. do 4 apply list_elem_of_further. apply list_elem_of_here.
Qed.

(** ** The rollover time *)

Lemma doRollover_clock s :
  os.clock (world (final (doRollover s))) = os.clock (world s).
Proof.
  rewrite doRollover_unfold. cbv zeta.
  set (w1 := (os.Now (world s)).2).
  assert (H1 : os.clock w1 = os.clock (world s)) by done.
  destruct (_ <=? _); [|done].
  set (c := os.Close (fd (hdl s)) w1).
  pose proof (Close_clock (fd (hdl s)) w1) as [Hc _]. fold c in Hc.
  set (r := os.Rename _ _ c.2).
  pose proof (Rename_clock (baseName (hdl s))
    (baseName (hdl s) +:+ time.Format (os.Now (world s)).1 (suffix (hdl s))) c.2)
    as [Hr _]. fold r in Hr.
  destruct r.1; cbn [final world]; [congruence|].
  pose proof (OpenFile_clock (baseName (hdl s)) r.2) as [Ho _].
  cbn. congruence.
Qed.

Lemma Write_keeps_clock p s :
  os.clock (world (final (TimeRotatingFileHandler_Write p s))) = os.clock (world s).
Proof.
  rewrite Write_unfold. destruct (mux (hdl s)); [done|].
  pose proof (doRollover_clock (locked s)) as Hd.
  destruct (doRollover (locked s)) as [[] s1|e s1|s1]; cbn [final] in *;
    try done.
  cbn [world]. unfold fmt.Fprintln.
  pose proof (Write_clock (fd (hdl s1)) (p ++ [fmt.newline]) (world (unlocked s1)))
    as [Hw _].
  rewrite Hw. cbn. by rewrite Hd.
Qed.

Lemma clock_mono (c : nat → Z) i j :
  (∀ n, c n <= c (S n)) → (i ≤ j)%nat → c i <= c j.
Proof.
  intros Hc Hij. induction Hij as [|j Hij IH]; [lia|]. specialize (Hc j). lia.
Qed.

(** One call: [rolloverAt] does not go back, and the handler stays
    steady. *)
Lemma Write_step_rolloverAt p s :
  steady s →
  rolloverAt (hdl s) <= rolloverAt (hdl (final (TimeRotatingFileHandler_Write p s))) ∧
  steady (final (TimeRotatingFileHandler_Write p s)).
Proof.
  intros (Hi & Hm & Hf).
  pose proof (Write_keeps_clock p s) as Hc.
  assert (Hst : ∀ l', interval l' = interval (hdl s) →
                hdl (final (TimeRotatingFileHandler_Write p s)) = l' →
                steady (final (TimeRotatingFileHandler_Write p s))).
  { intros l' Hl' Hh. unfold steady. rewrite Hc, Hh, Hl'. done. }
  destruct (Write_cases p s)
    as [(_ & Ho & _)|[(_ & _ & n & err & _ & Hh & _)|
        [(_ & _ & cerr & e0 & _ & Hh & _)|
         (_ & Hdue & cerr & r & n & err & _ & Hh & _)]]];
    cbv zeta in *.
  - rewrite Ho in *. cbn [final] in *. split; [lia|done].
  - split; [rewrite Hh; lia|]. eapply Hst; [|exact Hh]. done.
  - split; [rewrite Hh; cbn; lia|]. eapply Hst; [|exact Hh]. done.
  - split; [|eapply Hst; [|exact Hh]; done].
    rewrite Hh. cbn [rolloverAt set_rolloverAt].
    unfold int64_add. rewrite wrap_int64_id by apply Hf.
    unfold reading in *.
    pose proof (clock_mono (os.clock (world s)) (os.tick (world s) + 0)
                  (os.tick (world s) + 1) Hm ltac:(lia)).
    lia.
Qed.

Lemma write_all_cons p ps s :
  write_all (p :: ps) s =
  match TimeRotatingFileHandler_Write p s with
  | Val _ s1 => write_all ps s1
  | Panicked e s1 => Panicked e s1
  | Blocked s1 => Blocked s1
  end.
Proof. done. Qed.

Lemma write_all_mono ps s :
  steady s → rolloverAt (hdl s) <= rolloverAt (hdl (final (write_all ps s))).
Proof.
  revert s. induction ps as [|p ps IH]; intros s Hs; [cbn; lia|].
  rewrite write_all_cons.
  destruct (Write_step_rolloverAt p s Hs) as [Hle Hs'].
  destruct (TimeRotatingFileHandler_Write p s) as [r s1|e s1|s1];
    cbn [final] in *; [|done..].
  specialize (IH s1 Hs'). lia.
Qed.

Lemma write_all_steady ps s :
  steady s → steady (final (write_all ps s)).
Proof.
  revert s. induction ps as [|p ps IH]; intros s Hs; [done|].
  rewrite write_all_cons.
  destruct (Write_step_rolloverAt p s Hs) as [_ Hs'].
  destruct (TimeRotatingFileHandler_Write p s) as [r s1|e s1|s1];
    cbn [final] in *; [|done..].
  by apply IH.
Qed.

Lemma write_all_app ps1 ps2 s :
  final (write_all (ps1 ++ ps2) s) =
  match write_all ps1 s with
  | Val _ s1 => final (write_all ps2 s1)
  | Panicked _ s1 | Blocked s1 => s1
  end.
Proof.
  revert s. induction ps1 as [|p ps1 IH]; intros s; [done|].
  rewrite <- app_comm_cons, !write_all_cons.
  destruct (TimeRotatingFileHandler_Write p s) as [r s1|e s1|s1]; [|done..].
  apply IH.
Qed.

(** C3.  For a handler with [interval >= 1], a clock that never goes back
    and readings to which the interval can be added within an [int64]:
    along every sequence of [Write] calls [rolloverAt] never decreases;
    a [Write] that finds the rollover due at the reading [now] and returns
    has set [rolloverAt] to [now' + interval], where [now'] is the reading
    of the clock taken after the reopen ([now <= now'], and equal to [now]
    only when the clock has not moved meanwhile), however far [now] is
    past the old [rolloverAt]; a [Write] that finds it not due, or that
    panics on the rename, leaves [rolloverAt] as it was. *)
Theorem rolloverAt_advances (ps1 ps2 : list (list byte)) (p : list byte) (s : State) :
  1 <= interval (hdl s) →
  (∀ n, os.clock (world s) n <= os.clock (world s) (S n)) →
  (∀ n, in_int64 (os.clock (world s) n + interval (hdl s))) →
  let o := TimeRotatingFileHandler_Write p s in
  rolloverAt (hdl s) <= rolloverAt (hdl (final (write_all ps1 s))) ∧
  rolloverAt (hdl (final (write_all ps1 s))) <=
    rolloverAt (hdl (final (write_all (ps1 ++ ps2) s))) ∧
  (rolloverAt (hdl s) <= reading s 0 → ∀ r s', o = Val r s' →
     rolloverAt (hdl s') = reading s 1 + interval (hdl s) ∧
     reading s 0 <= reading s 1 ∧
     rolloverAt (hdl s) < rolloverAt (hdl s')) ∧
  (reading s 0 < rolloverAt (hdl s) →
     rolloverAt (hdl (final o)) = rolloverAt (hdl s)) ∧
  (∀ e s', o = Panicked e s' → rolloverAt (hdl s') = rolloverAt (hdl s)).
Proof.
  intros Hi Hm Hf. cbv zeta.
  assert (Hs : steady s) by done.
  split_and!.
  - by apply write_all_mono.
  - rewrite write_all_app.
    pose proof (write_all_steady ps1 s Hs) as Hs1.
    destruct (write_all ps1 s) as [[] s1|e s1|s1]; cbn [final] in *; [|lia..].
    by apply write_all_mono.
  - intros Hdue r s' Ho.
    destruct (Write_cases p s)
      as [(_ & Hb & _)|[(_ & Hlt & _)|
          [(_ & _ & cerr & e0 & Hp & _)|
           (_ & _ & cerr & r0 & n & err & Hv & Hh & _)]]];
      cbv zeta in *; [congruence|lia|congruence|].
    rewrite Ho in Hh. cbn [final] in Hh. rewrite Hh.
    cbn [rolloverAt set_rolloverAt]. unfold int64_add.
    rewrite wrap_int64_id by apply Hf.
    unfold reading in *.
    pose proof (clock_mono (os.clock (world s)) (os.tick (world s) + 0)
                  (os.tick (world s) + 1) Hm ltac:(lia)).
    lia.
  - intros Hlt.
    destruct (Write_cases p s)
      as [(_ & Hb & _)|[(_ & _ & n & err & _ & Hh & _)|
          [(_ & Hdue & _)|(_ & Hdue & _)]]];
      cbv zeta in *; [by rewrite Hb|by rewrite Hh|lia..].
  - intros e s' Ho.
    destruct (Write_cases p s)
      as [(_ & Hb & _)|[(_ & _ & n & err & Hv & _)|
          [(_ & _ & cerr & e0 & _ & Hh & _)|
           (_ & _ & cerr & r0 & n & err & Hv & _)]]];
      cbv zeta in *; [congruence|congruence| |congruence].
    rewrite Ho in Hh. cbn [final] in Hh. by rewrite Hh.
Qed.

Lemma rolloverAt_advances_witness :
  let s := mkState (sample_handler 1704107045)
             (sample_world (jumping 1704103445 3600) 8 []) in
  let ps1 := [["a"%byte]] in
  let ps2 := [["b"%byte]] in
  let o := TimeRotatingFileHandler_Write ["a"%byte] s in
  rolloverAt (hdl s) <= rolloverAt (hdl (final (write_all ps1 s))) ∧
  rolloverAt (hdl (final (write_all ps1 s))) <=
    rolloverAt (hdl (final (write_all (ps1 ++ ps2) s))) ∧
  (rolloverAt (hdl s) <= reading s 0 → ∀ r s', o = Val r s' →
     rolloverAt (hdl s') = reading s 1 + interval (hdl s) ∧
     reading s 0 <= reading s 1 ∧
     rolloverAt (hdl s) < rolloverAt (hdl s')) ∧
  (reading s 0 < rolloverAt (hdl s) →
     rolloverAt (hdl (final o)) = rolloverAt (hdl s)) ∧
  (∀ e s', o = Panicked e s' → rolloverAt (hdl s') = rolloverAt (hdl s)).
Proof.
  cbv zeta.
  apply (rolloverAt_advances [["a"%byte]] [["b"%byte]] ["a"%byte]
           (mkState (sample_handler 1704107045)
              (sample_world (jumping 1704103445 3600) 8 []))).
  - simpl. lia.
  - intros [|n]; simpl; lia.
  - intros [|n]; vm_compute; split; discriminate.
Defined.

(** The new [rolloverAt] is not [now + interval] for the [now] of the due
    check: with a clock that moves on by a second between the two readings
    of the rollover it is a second later.  And the sum is an [int64] sum:
    for the handler built with the second as granularity and the largest
    multiplier, the new [rolloverAt] is 2^64 less than the reading plus
    the interval. *)
Lemma rolloverAt_from_second_reading :
  (let s := mkState (sample_handler 1704103445)
              (sample_world (ticking 1704103445) 8 []) in
   ∃ r s',
     TimeRotatingFileHandler_Write ["a"%byte] s = Val r s' ∧
     interval (hdl s) = 3600 ∧
     rolloverAt (hdl s) <= reading s 0 ∧
     reading s 0 = 1704103445 ∧
     reading s 1 = 1704103446 ∧
     rolloverAt (hdl s') = 1704107046 ∧
     rolloverAt (hdl s') ≠ reading s 0 + interval (hdl s)) ∧
  (let s := constructed WhenSecond (2 ^ 63 - 1) in
   ∃ r s',
     TimeRotatingFileHandler_Write ["a"%byte] s = Val r s' ∧
     interval (hdl s) = 2 ^ 63 - 1 ∧
     rolloverAt (hdl s) <= reading s 0 ∧
     rolloverAt (hdl s') = reading s 1 + interval (hdl s) - 2 ^ 64).
Proof.
  cbv zeta. split.
  - exists (2, None),
      (final (TimeRotatingFileHandler_Write ["a"%byte]
                (mkState (sample_handler 1704103445)
                   (sample_world (ticking 1704103445) 8 [])))).
    split_and!; try (vm_compute; reflexivity); vm_compute; discriminate.
  - exists (2, None),
      (final (TimeRotatingFileHandler_Write ["a"%byte]
                (constructed WhenSecond (2 ^ 63 - 1)))).
    split_and!; try (vm_compute; reflexivity); vm_compute; discriminate.
Qed.

(** ** The worker loop *)

Lemma handleLog_cons {St} `{Handler St} json rest c (s : St) :
  handleLog (json :: rest) c s =
  match Write json s with
  | Val _ s1 => handleLog rest (incr_handledNum c) s1
  | Panicked e s1 => Panicked e s1
  | Blocked s1 => Blocked s1
  end.
Proof. done. Qed.

Lemma handleLog_handledNum {St} `{Handler St} logChannel c c' (s s' : St) :
  handleLog logChannel c s = Val c' s' →
  wrap_uint64 (handledNum c') =
  wrap_uint64 (handledNum c + Z.of_nat (length logChannel)).
Proof.
  revert c s. induction logChannel as [|json rest IH]; intros c s.
  - intros [= -> _]. cbn. by rewrite Z.add_0_r.
  - rewrite handleLog_cons. destruct (Write json s) as [r s1|e s1|s1]; [|done..].
    intros Hrest. rewrite (IH _ _ Hrest). cbn [handledNum incr_handledNum].
    rewrite wrap_uint64_add. f_equal. cbn [length]. lia.
Qed.

Lemma handleLog_uint64 {St} `{Handler St} logChannel c c' (s s' : St) :
  0 <= handledNum c < 2 ^ 64 →
  handleLog logChannel c s = Val c' s' →
  0 <= handledNum c' < 2 ^ 64.
Proof.
  revert c s. induction logChannel as [|json rest IH]; intros c s Hc.
  - by intros [= <- _].
  - rewrite handleLog_cons. destruct (Write json s) as [r s1|e s1|s1]; [|done..].
    apply IH. cbn. unfold wrap_uint64. apply Z.mod_pos_bound. lia.
Qed.

(** A loop running alone has the outcome of its writes; when they all
    return, it has incremented the counter once for each payload,
    whatever the writes returned. *)
Lemma handleLog_alone logChannel c s :
  handleLog logChannel c s =
  match write_all logChannel s with
  | Val _ s' => Val (Nat.iter (length logChannel) incr_handledNum c) s'
  | Panicked e s' => Panicked e s'
  | Blocked s' => Blocked s'
  end.
Proof.
  revert c s. induction logChannel as [|json rest IH]; intros c s; [done|].
  rewrite handleLog_cons, write_all_cons.
  cbn [Write TimeRotatingFileHandler_Handler].
  destruct (TimeRotatingFileHandler_Write json s) as [r s1|e s1|s1]; [|done..].
  rewrite IH. destruct (write_all rest s1); [|done..].
  cbn [length]. by rewrite Nat.iter_succ_r.
Qed.

Lemma handledNum_iter K c :
  0 <= handledNum c < 2 ^ 64 →
  handledNum (Nat.iter K incr_handledNum c)
  = wrap_uint64 (handledNum c + Z.of_nat K).
Proof.
  intros Hc. induction K as [|K IH].
  - cbn. rewrite Z.add_0_r. unfold wrap_uint64. by rewrite Z.mod_small.
  - rewrite Nat.iter_succ. cbn [handledNum incr_handledNum].
    rewrite IH, wrap_uint64_add. f_equal. lia.
Qed.

(** ** Two workers: the increment is a read and a write *)

(** The line-by-line machine, run alone on a channel that holds [ps], is
    [handleLog]. *)
Lemma exec_handleLog ps : ∀ cap c s,
  let o := pool.exec (length ps * 4) pool.L176
             (pool.mkShared (ingress.mkChan ps cap) s c) in
  match handleLog ps c s with
  | Val c' s' => o = (pool.L176, pool.mkShared (ingress.mkChan [] cap) s' c')
  | Panicked e s' => o.1 = pool.Panic e ∧ pool.writer o.2 = s'
  | Blocked _ => True
  end.
Proof.
  induction ps as [|p ps IH]; intros cap c s; [done|].
  cbv zeta. rewrite handleLog_cons.
  cbn [length Nat.mul Nat.add pool.exec pool.step ingress.recv ingress.buf
       ingress.cap pool.logChannel pool.writer pool.c].
  destruct (Write p s) as [r s1|e s1|s1]; [|done..].
  cbn [pool.exec pool.step pool.logChannel pool.writer pool.c].
  apply (IH cap (incr_handledNum c) s1).
Qed.

(** Two workers that each read the counter before the other has written
    it back count one payload for two, whatever the payloads, the handler
    and the counter are, as long as the two writes return. *)
Lemma racing_counts_one a b rest cap s c r1 s1 r2 s2 :
  Write a s = Val r1 s1 →
  Write b s1 = Val r2 s2 →
  pool.run [true; true; true; false; false; false; true; false]
    (pool.mkConfig2 (pool.mkShared (ingress.mkChan (a :: b :: rest) cap) s c)
       pool.L176 pool.L176)
  = pool.mkConfig2
      (pool.mkShared (ingress.mkChan rest cap) s2
         (set_handledNum (wrap_uint64 (handledNum c + 1)) c))
      pool.L176 pool.L176.
Proof.
  intros H1 H2. unfold pool.run. cbn [fold_left].
  cbn [pool.sched_step pool.step pool.shared pool.g1 pool.g2 ingress.recv
       ingress.buf ingress.cap pool.logChannel pool.writer pool.c].
  rewrite H1.
  cbn [pool.sched_step pool.step pool.shared pool.g1 pool.g2 ingress.recv
       ingress.buf ingress.cap pool.logChannel pool.writer pool.c].
  rewrite H2.
  cbn [pool.sched_step pool.step pool.shared pool.g1 pool.g2 ingress.recv
       ingress.buf ingress.cap pool.logChannel pool.writer pool.c].
  done.
Qed.

(** C5.  The claim is what the counter is for, and a loop running alone
    does it ([handleLog_alone]); the two workers of [main] do not.  They
    share [c], and [c.handledNum++] on line 178 is a read and a write with
    nothing between the workers to make them one step: the write stores
    what its worker read plus one, whatever the counter holds by then.
    Here two requests have put "a" and "b" on the channel; each worker
    receives one, writes it without an error and reads the counter, 0,
    before the other has written it back; both then store 1.  Both
    payloads are in the file, both workers are back at the head of their
    loop, and the counter has advanced by one for the two payloads.  The
    same workers taking their iterations one after the other count 2. *)
Theorem handledNum_loses_an_increment :
  let ok := ingress.mkResponse 200 [("status", "ok")] in
  let queued := ingress.mkChan [["a"%byte]; ["b"%byte]] 2 in
  let m0 :=
    pool.mkShared queued
      (mkState (sample_handler 1704107045)
         (sample_world (ticking 1704103445) 8 []))
      (mkConfig "/var/log/kong-log" "127.0.0.1" "9513" 0 1704103445) in
  let k0 := pool.mkConfig2 m0 pool.L176 pool.L176 in
  let racing :=
    pool.run [true; true; true; false; false; false; true; false] k0 in
  let in_turn :=
    pool.run [true; true; true; true; false; false; false; false] k0 in
  let written (k : pool.Config) :=
    filter (λ e, is_Write e = true)
      (os.trace (world (pool.writer (pool.shared k)))) in
  (∀ n m, ∃ m',
     pool.step (pool.L178' n) m = Some (pool.L176, m') ∧
     handledNum (pool.c m') = wrap_uint64 (n + 1)) ∧
  (∃ ch,
     ingress.post_kong_log (["a"%byte], None) ingress.make_chan
     = ingress.Responded ok ch ∧
     ingress.post_kong_log (["b"%byte], None) ch
     = ingress.Responded ok queued) ∧
  pool.g1 racing = pool.L176 ∧ pool.g2 racing = pool.L176 ∧
  ingress.buf (pool.logChannel (pool.shared racing)) = [] ∧
  written racing =
    [os.EvWrite (Some 0%nat) ["a"%byte; fmt.newline] 2 None;
     os.EvWrite (Some 0%nat) ["b"%byte; fmt.newline] 2 None] ∧
  os.contents (world (pool.writer (pool.shared racing))) "/var/log/kong-log"
  = Some (lines [["a"%byte]; ["b"%byte]]) ∧
  handledNum (pool.c (pool.shared racing)) = 1 ∧
  written in_turn = written racing ∧
  handledNum (pool.c (pool.shared in_turn)) = 2.
Proof.
  cbv zeta. split.
  { intros n m. eexists. split; reflexivity. }
  split.
  { eexists. split; vm_compute; reflexivity. }
  split_and!; vm_compute; reflexivity.
Qed.

(** ** The ingress endpoint *)

(** C6.  The handler of POST /kong-log answers every request with status
    200 and the body status: ok, and with nothing else.  When the body
    cannot be read it answers at once and the channel is as it was; when
    the body was read, the answer follows the send of the payload, which
    is then the last element of the channel.  The handler takes no part
    of the writer's state or results: what becomes of the payload cannot
    change the answer.  The one thing that keeps the answer back is a
    full channel: the handler waits in the send, and has room as soon as
    a worker has received a payload. *)
Theorem post_kong_log_always_ok (raw : list byte * option error) (ch : ingress.Chan) :
  let ok := ingress.mkResponse 200 [("status", "ok")] in
  let pushed := ingress.mkChan (ingress.buf ch ++ [raw.1]) (ingress.cap ch) in
  match ingress.post_kong_log raw ch with
  | ingress.Responded r ch' =>
      r = ok ∧ ch' = (if raw.2 is Some _ then ch else pushed)
  | ingress.Sending data =>
      raw.2 = None ∧ data = raw.1 ∧
      (ingress.cap ch ≤ length (ingress.buf ch))%nat
  end ∧
  (is_Some raw.2 → ingress.post_kong_log raw ch = ingress.Responded ok ch) ∧
  (raw.2 = None → (length (ingress.buf ch) < ingress.cap ch)%nat →
   ingress.post_kong_log raw ch = ingress.Responded ok pushed) ∧
  (raw.2 = None → (length (ingress.buf ch) = ingress.cap ch)%nat →
   ∀ d ch1, ingress.recv ch = Some (d, ch1) →
   ingress.post_kong_log raw ch1 =
   ingress.Responded ok
     (ingress.mkChan (ingress.buf ch1 ++ [raw.1]) (ingress.cap ch1))).
Proof.
  cbv zeta. destruct raw as [data [err|]]; cbn [fst snd].
  - unfold ingress.post_kong_log. split_and!; try done.
  - unfold ingress.post_kong_log, ingress.send, ingress.JSON, ingress.StatusOK.
    split_and!.
    + case_decide; [done|]. split_and!; try done. lia.
    + by intros [? [=]].
    + intros _ Hroom. by rewrite decide_True.
    + intros _ Hfull d ch1 Hrecv. unfold ingress.recv in Hrecv.
      destruct (ingress.buf ch) as [|d0 rest] eqn:Hb; [done|].
      injection Hrecv as -> <-. cbn [ingress.buf ingress.cap].
      rewrite decide_True; [done|]. cbn in Hfull. lia.
Qed.

(** ** Two goroutines: the append is outside the lock *)

(** The line-by-line machine, run alone, is [Write]. *)
Lemma exec_Write p s :
  interleaving.exec 9 p interleaving.L93 s =
  match TimeRotatingFileHandler_Write p s with
  | Val r s' => (interleaving.Returned r.1 r.2, s')
  | Panicked e s' => (interleaving.Panic e, s')
  | Blocked s' => (interleaving.L93, s')
  end.
Proof.
  rewrite Write_unfold, doRollover_unfold. cbv zeta.
  unfold interleaving.exec.
  (* line 93 *)
  cbn [interleaving.step]. unfold Lock.
  destruct (mux (hdl s)) eqn:Hm; cbn [interleaving.goto]; [done|].
  fold (locked s).
  (* line 76 *)
  cbn [interleaving.step]. unfold sys at 1.
  destruct (os.Now (world (locked s))) as [now w1].
  cbn [interleaving.goto fst snd].
  (* line 78 *)
  cbn [interleaving.step hdl world].
  destruct (rolloverAt (hdl (locked s)) <=? time.Unix now).
  - (* line 80 *)
    cbn [interleaving.step hdl world]. unfold sys at 1. cbn [hdl world].
    destruct (os.Close (fd (hdl (locked s))) w1) as [cerr w2].
    cbn [interleaving.goto fst snd].
    (* line 81 *)
    cbn [interleaving.step hdl world]. unfold mbind, M_bind, sys at 1.
    cbn [hdl world].
    destruct (os.Rename _ _ w2) as [[e|] w3];
      cbn [interleaving.goto interleaving.step fst snd panic mret M_ret];
      [done|].
    (* line 86 *)
    unfold mbind, M_bind, sys, modify_l. cbn [hdl world].
    destruct (os.OpenFile (baseName (hdl (locked s))) w3) as [r w4].
    cbn [interleaving.goto fst snd hdl world].
    (* line 88 *)
    cbn [interleaving.step]. unfold mbind, M_bind, sys, modify_l.
    cbn [hdl world].
    destruct (os.Now w4) as [now' w5].
    cbn [interleaving.goto fst snd hdl world].
    (* line 95 *)
    cbn [interleaving.step]. unfold Unlock.
    cbn [hdl world mux set_mux set_fd set_rolloverAt locked interleaving.goto].
    (* line 96 *)
    cbn [interleaving.step]. unfold sys, unlocked.
    cbn [hdl world fd set_mux set_fd set_rolloverAt interval mux].
    by destruct (fmt.Fprintln _ _ _) as [[n err] w6].
  - (* line 95 *)
    cbn [interleaving.step]. unfold Unlock.
    cbn [hdl world mux set_mux locked interleaving.goto].
    (* line 96 *)
    cbn [interleaving.step]. unfold sys, unlocked.
    cbn [hdl world fd set_mux].
    by destruct (fmt.Fprintln _ _ _) as [[n err] w6].
Qed.

(** In every call of [Write] that returns, the unlock comes before the
    write to the file: the append is the one step made without the
    mutex. *)
Lemma Write_unlocks_before_append p s r s' :
  TimeRotatingFileHandler_Write p s = Val r s' →
  ∃ evs f,
    new_events (world s) (world s') =
    os.EvLock :: evs ++ [os.EvUnlock; os.EvWrite f (p ++ [fmt.newline]) r.1 r.2] ∧
    mux (hdl s') = false.
Proof.
  intros Ho.
  destruct (Write_cases p s)
    as [(_ & Hb & _)|[(Hm & _ & n & err & Hv & Hh & Hev)|
        [(_ & _ & cerr & e0 & Hp & _)|
         (Hm & _ & cerr & r0 & n & err & Hv & Hh & Hev & _)]]];
    cbv zeta in *; try congruence;
    rewrite Ho in *; cbn [final] in *; injection Hv as ->; rewrite Hev, Hh.
  - exists [os.EvNow (reading s 0)], (fd (hdl s)). done.
  - eexists [_; _; _; _; _], _. done.
Qed.

(** C1.  [Write] holds the mutex for the due check and the rollover only:
    it unlocks on line 95 and appends on line 96.  The append never waits
    for the mutex, and it can run while the other worker is inside its
    rollover.  Here two workers share the hourly handler of
    /var/log/kong-log, which holds one record; the first writes "a" and
    finds the rollover not due, the second writes "b" a second later and
    finds it due.  The first has unlocked and stands before its append
    when the second, holding the mutex, has closed the file and is about
    to rename it; the append of the first then hits the closed file and
    fails.  At the end "a" is in neither file. *)
Theorem append_interleaves_with_rollover :
  let s0 := mkState (sample_handler 1704103446)
              (sample_world (ticking 1704103445) 8 ["x"%byte; fmt.newline]) in
  let c0 := interleaving.mkConfig2 s0 interleaving.L93 interleaving.L93 in
  let mid :=
    interleaving.run ["a"%byte] ["b"%byte]
      [true; true; true; true; false; false; false; false] c0 in
  let last :=
    interleaving.run ["a"%byte] ["b"%byte]
      [true; false; false; false; false; false] mid in
  (∀ p s, ∃ n err s',
     interleaving.step p interleaving.L96 s
     = Some (interleaving.Returned n err, s') ∧
     mux (hdl s') = mux (hdl s)) ∧
  interleaving.g1 mid = interleaving.L96 ∧
  interleaving.g2 mid = interleaving.L81 "/var/log/kong-log2024-01-01_10" ∧
  mux (hdl (interleaving.shared mid)) = true ∧
  os.open_ino (world (interleaving.shared mid))
    (fd (hdl (interleaving.shared mid))) = None ∧
  interleaving.g1 last =
    interleaving.Returned 0
      (Some (PathError "write" "/var/log/kong-log" ErrClosed)) ∧
  interleaving.g2 last = interleaving.Returned 2 None ∧
  os.contents (world (interleaving.shared last)) "/var/log/kong-log"
  = Some ["b"%byte; fmt.newline] ∧
  os.contents (world (interleaving.shared last)) "/var/log/kong-log2024-01-01_10"
  = Some ["x"%byte; fmt.newline].
Proof.
  cbv zeta. split_and!; try (vm_compute; reflexivity).
  intros p s. cbn [interleaving.step]. unfold sys.
  destruct (fmt.Fprintln (fd (hdl s)) p (world s)) as [[n err] w'].
  cbn [interleaving.goto fst snd]. by exists n, err, (mkState (hdl s) w').
Qed.

(** * Further properties of the handler, the constructor and the loop *)

(** ** What the library calls do to the files *)

Lemma Close_files f w :
  os.nodes (os.Close f w).2 = os.nodes w ∧
  os.inodes (os.Close f w).2 = os.inodes w ∧
  os.free_inodes (os.Close f w).2 = os.free_inodes w ∧
  os.free_bytes (os.Close f w).2 = os.free_bytes w ∧
  dom (os.heap (os.Close f w).2) = dom (os.heap w).
Proof.
  unfold os.Close. repeat case_match; simplify_eq/=; split_and!; try done.
  apply set_eq. intros k. rewrite dom_insert, elem_of_union, elem_of_singleton.
  split; [|by right]. intros [->|]; [|done]. by apply elem_of_dom.
Qed.

(** After [f.Close()] the file [f] is not open, whatever it was before. *)
Lemma Close_closes f w : os.open_ino (os.Close f w).2 f = None.
Proof.
  unfold os.Close, os.open_ino.
  destruct f as [h|]; [|done]. cbn.
  destruct (os.heap w !! h) as [[n [ino|]]|] eqn:Hh; cbn.
  - by rewrite lookup_insert_eq.
  - by rewrite Hh.
  - by rewrite Hh.
Qed.

Lemma Close_result f w :
  (os.Close f w).1 =
  match f with
  | None => Some ErrInvalid
  | Some h =>
      match os.heap w !! h with
      | None => Some ErrInvalid
      | Some (os.mkFile n None) => Some (PathError "close" n ErrClosed)
      | Some (os.mkFile n (Some _)) => None
      end
  end.
Proof. unfold os.Close. by repeat case_match; simplify_eq/=. Qed.

Lemma Rename_files old new w :
  os.inodes (os.Rename old new w).2 = os.inodes w ∧
  os.heap (os.Rename old new w).2 = os.heap w ∧
  os.free_inodes (os.Rename old new w).2 = os.free_inodes w ∧
  os.free_bytes (os.Rename old new w).2 = os.free_bytes w.
Proof. unfold os.Rename. by repeat case_match; simplify_eq/=. Qed.

(** A rename of a regular file that succeeds moves the name, over whatever
    the new name denoted. *)
Lemma Rename_ok_reg old new w ino :
  os.nodes w !! path.Clean old = Some (os.Reg ino) →
  (os.Rename old new w).1 = None →
  os.nodes (os.Rename old new w).2 =
  <[path.Clean new := os.Reg ino]> (delete (path.Clean old) (os.nodes w)).
Proof.
  unfold os.Rename. intros ->. by repeat case_match; simplify_eq/=.
Qed.

(** A name that is not there cannot be renamed. *)
Lemma Rename_missing old new w :
  os.nodes w !! path.Clean old = None →
  ∃ e, (os.Rename old new w).1 = Some (LinkError "rename" old new e) ∧
       (e = ENOENT ∨ e = EEXIST) ∧
       os.nodes (os.Rename old new w).2 = os.nodes w.
Proof.
  intros H. unfold os.Rename. rewrite H.
  destruct (os.is_dir w (path.Clean new)); cbn.
  - exists ENOENT. split_and!; [done|by left|done].
  - exists ENOENT. split_and!; [done|by left|done].
Qed.

Lemma OpenFile_fail name w e :
  (os.OpenFile name w).1 = inr e →
  os.nodes (os.OpenFile name w).2 = os.nodes w ∧
  os.inodes (os.OpenFile name w).2 = os.inodes w ∧
  os.heap (os.OpenFile name w).2 = os.heap w.
Proof.
  unfold os.OpenFile, os.new_File.
  repeat case_match; simplify_eq/=; intros; simplify_eq; done.
Qed.

(** A successful open: a new [os.File] on the file the name denoted, or on
    a new, empty file when the name denoted nothing. *)
Lemma OpenFile_ok name w f :
  (os.OpenFile name w).1 = inl f →
  let w' := (os.OpenFile name w).2 in
  let key := path.Clean name in
  ∃ ino,
    (f ∉ dom (os.heap w)) ∧
    os.heap w' = <[f := os.mkFile name (Some ino)]> (os.heap w) ∧
    os.is_dir w (path.Dir name) = true ∧
    ((os.nodes w !! key = Some (os.Reg ino) ∧ is_Some (os.inodes w !! ino) ∧
      os.nodes w' = os.nodes w ∧ os.inodes w' = os.inodes w) ∨
     (os.nodes w !! key = None ∧ (ino ∉ dom (os.inodes w)) ∧
      os.nodes w' = <[key := os.Reg ino]> (os.nodes w) ∧
      os.inodes w' = <[ino := os.Inode [] (os.kernel_time w)]> (os.inodes w))).
Proof.
  unfold os.OpenFile, os.new_File. cbv zeta.
  destruct (os.is_dir w (path.Dir name)) eqn:Hd; cbn [negb]; [|done].
  destruct (os.is_dir w (path.Clean name)); [done|].
  destruct (os.nodes w !! path.Clean name) as [[|ino]|] eqn:Hk; [done| |].
  - destruct (os.inodes w !! ino) as [i|] eqn:Hi; [|done].
    cbn. intros [= <-]. exists ino. split_and!; try done; [apply is_fresh|].
    left. split_and!; eauto.
  - destruct (os.free_inodes w) as [|k]; [done|].
    cbn. intros [= <-]. exists (fresh (dom (os.inodes w))).
    split_and!; try done; [apply is_fresh|].
    right. split_and!; try done. apply is_fresh.
Qed.

Lemma OpenFile_free_bytes name w :
  os.free_bytes (os.OpenFile name w).2 = os.free_bytes w.
Proof.
  unfold os.OpenFile, os.new_File. by repeat case_match; simplify_eq/=.
Qed.

(** A write that finds the file open and room on the device. *)
Lemma os_Write_full f b w ino i :
  os.open_ino w f = Some ino → os.inodes w !! ino = Some i →
  (length b ≤ os.free_bytes w)%nat →
  os.Write f b w =
  ((Z.of_nat (length b), None),
   os.log (os.EvWrite f b (Z.of_nat (length b)) None)
     (os.set_free_bytes (os.free_bytes w - length b)
        (os.set_inodes
           (insert ino (os.Inode (os.i_data i ++ b) (os.kernel_time w))) w))).
Proof.
  unfold os.open_ino, os.Write. intros Ho Hi Hb.
  destruct f as [h|]; [|done]. cbn in Ho.
  destruct (os.heap w !! h) as [[n [ino'|]]|]; simplify_eq/=.
  rewrite Hi. cbn zeta. rewrite Nat.min_l by done.
  rewrite decide_True by done. by rewrite firstn_all.
Qed.

(** A write to a file that is closed. *)
Lemma os_Write_closed h n b w :
  os.heap w !! h = Some (os.mkFile n None) →
  os.Write (Some h) b w =
  ((0, Some (PathError "write" n ErrClosed)),
   os.log (os.EvWrite (Some h) b 0 (Some (PathError "write" n ErrClosed))) w).
Proof. unfold os.Write. by intros ->. Qed.

(** ** A rollover moves the file and starts a new one *)

Lemma contents_Some w name data :
  os.contents w name = Some data ↔
  ∃ ino i, os.nodes w !! path.Clean name = Some (os.Reg ino) ∧
           os.inodes w !! ino = Some i ∧ os.i_data i = data.
Proof.
  unfold os.contents. split.
  - destruct (os.nodes w !! path.Clean name) as [[|ino]|]; try done.
    destruct (os.inodes w !! ino) as [i|] eqn:Hi; [|done].
    intros [= <-]. eauto.
  - intros (ino & i & -> & -> & <-). done.
Qed.

(** The rollover that goes through, in terms of the files. *)
Lemma doRollover_moves s data s' :
  let l := hdl s in
  let fName := rolled_name l (reading s 0) in
  rolloverAt l <= reading s 0 →
  os.contents (world s) (baseName l) = Some data →
  path.Clean fName ≠ path.Clean (baseName l) →
  doRollover s = Val () s' →
  ∃ ino i,
    os.nodes (world s') !! path.Clean fName = Some (os.Reg ino) ∧
    os.inodes (world s') !! ino = Some i ∧ os.i_data i = data ∧
    (fd (hdl s') = None ∨
     ∃ ino' t, ino' ≠ ino ∧
       os.open_ino (world s') (fd (hdl s')) = Some ino' ∧
       os.nodes (world s') !! path.Clean (baseName l) = Some (os.Reg ino') ∧
       os.inodes (world s') !! ino' = Some (os.Inode [] t)) ∧
    (∀ h, fd l = Some h → is_Some (os.heap (world s) !! h) →
          os.open_ino (world s') (Some h) = None) ∧
    os.free_bytes (world s') = os.free_bytes (world s).
Proof.
  cbv zeta. unfold rolled_name. intros Hdue Hc Hne.
  rewrite doRollover_unfold. cbv zeta.
  assert (Hnow : (os.Now (world s)).1 = reading s 0).
  { unfold reading. by rewrite Nat.add_0_r. }
  rewrite Hnow. unfold time.Unix. rewrite (proj2 (Z.leb_le _ _) Hdue).
  set (l := hdl s) in *. set (fName := baseName l +:+ _) in *.
  set (w1 := (os.Now (world s)).2).
  pose proof (Close_files (fd l) w1) as (Hn2 & Hi2 & _ & Hb2 & Hd2).
  pose proof (Close_closes (fd l) w1) as Hcl.
  set (w2 := (os.Close (fd l) w1).2) in *.
  pose proof (Rename_files (baseName l) fName w2) as (Hi3 & Hh3 & _ & Hb3).
  apply contents_Some in Hc as (ino & i & Hk & Hi & Hdata).
  assert (Hk2 : os.nodes w2 !! path.Clean (baseName l) = Some (os.Reg ino))
    by (by rewrite Hn2).
  pose proof (Rename_ok_reg (baseName l) fName w2 ino Hk2) as Hn3.
  destruct (os.Rename (baseName l) fName w2).1 as [e|]; [done|].
  specialize (Hn3 eq_refl).
  set (w3 := (os.Rename (baseName l) fName w2).2) in *.
  assert (Hi3' : os.inodes w3 !! ino = Some i) by (by rewrite Hi3, Hi2).
  assert (Hko : os.nodes w3 !! path.Clean (baseName l) = None).
  { rewrite Hn3, lookup_insert_ne by done. apply lookup_delete_eq. }
  assert (Hkn : os.nodes w3 !! path.Clean fName = Some (os.Reg ino)).
  { rewrite Hn3. apply lookup_insert_eq. }
  intros [= <-]. cbn [hdl world fd set_fd set_rolloverAt].
  exists ino, i.
  destruct (os.OpenFile (baseName l) w3).1 as [f|e] eqn:Ho.
  - pose proof (OpenFile_ok (baseName l) w3 f Ho) as Hok. cbv zeta in Hok.
    destruct Hok as (ino' & Hf & Hh4 & _ & [(Hex & _)|(_ & Hfresh & Hn4 & Hi4)]);
      [congruence|].
    set (w4 := (os.OpenFile (baseName l) w3).2) in *.
    assert (Hne' : ino' ≠ ino).
    { intros ->. apply Hfresh. apply elem_of_dom. eauto. }
    split_and!.
    + cbn. rewrite Hn4, lookup_insert_ne by done. done.
    + cbn. rewrite Hi4, lookup_insert_ne by done. done.
    + done.
    + right. exists ino', (os.kernel_time w3). cbn. split_and!.
      * done.
      * unfold os.open_ino. cbn. rewrite Hh4, lookup_insert_eq. done.
      * rewrite Hn4. apply lookup_insert_eq.
      * rewrite Hi4. apply lookup_insert_eq.
    + intros h Hfd Hsome. unfold os.open_ino. cbn. rewrite Hh4.
      assert (h ≠ f).
      { intros ->. apply Hf. rewrite Hh3, Hd2. by apply elem_of_dom. }
      rewrite lookup_insert_ne by done. rewrite Hh3.
      rewrite Hfd in Hcl. unfold os.open_ino in Hcl. cbn in Hcl. done.
    + cbn. unfold w4. by rewrite OpenFile_free_bytes, Hb3, Hb2.
  - pose proof (OpenFile_fail (baseName l) w3 e Ho) as (Hn4 & Hi4 & Hh4).
    set (w4 := (os.OpenFile (baseName l) w3).2) in *.
    split_and!.
    + cbn. by rewrite Hn4.
    + cbn. by rewrite Hi4.
    + done.
    + by left.
    + intros h Hfd Hsome. unfold os.open_ino. cbn. rewrite Hh4, Hh3.
      rewrite Hfd in Hcl. unfold os.open_ino in Hcl. cbn in Hcl. done.
    + cbn. unfold w4. by rewrite OpenFile_free_bytes, Hb3, Hb2.
Qed.



(** A [Write] that rolls over and returns no error, in terms of the
    inodes. *)
Lemma Write_rolls_then_appends_aux p s s' data n :
  let l := hdl s in
  let fName := rolled_name l (reading s 0) in
  mux l = false →
  rolloverAt l <= reading s 0 →
  os.contents (world s) (baseName l) = Some data →
  path.Clean fName ≠ path.Clean (baseName l) →
  TimeRotatingFileHandler_Write p s = Val (n, None) s' →
  n = Z.of_nat (length p) + 1 ∧
  ∃ ino i ino' i',
    os.nodes (world s') !! path.Clean fName = Some (os.Reg ino) ∧
    os.inodes (world s') !! ino = Some i ∧ os.i_data i = data ∧
    os.nodes (world s') !! path.Clean (baseName l) = Some (os.Reg ino') ∧
    os.inodes (world s') !! ino' = Some i' ∧
    os.i_data i' = p ++ [fmt.newline] ∧
    os.open_ino (world s') (fd (hdl s')) = Some ino'.
Proof.
  cbv zeta. intros Hm Hdue Hc Hne. rewrite Write_unfold, Hm.
  destruct (doRollover (locked s)) as [[] s1|e s1|s1] eqn:Hd; [|done..].
  cbv zeta. intros [= Hr Hs].
  destruct (doRollover_moves (locked s) data s1 Hdue Hc Hne Hd)
    as (ino & i & Hkn & Hi & Hdat & Hnew & _ & _).
  cbn [locked hdl baseName set_mux] in Hkn, Hnew.
  change (reading (locked s) 0) with (reading s 0) in Hkn.
  change (rolled_name (set_mux true (hdl s)) (reading s 0))
    with (rolled_name (hdl s) (reading s 0)) in Hkn.
  unfold fmt.Fprintln, unlocked in Hr, Hs. cbn [world] in Hr, Hs.
  destruct (os.Write (fd (hdl s1)) (p ++ [fmt.newline])
              (os.log os.EvUnlock (world s1)))
    as [[n0 err] w'] eqn:Hw.
  cbn in Hr. injection Hr as -> ->. subst s'. cbn [world hdl snd].
  apply os_Write_ok in Hw as (-> & ino0 & i0 & Ho & Hi0 & Hin & Hn & Hhp).
  cbn in Hin, Hn, Hhp.
  destruct Hnew as [Hnil|(ino' & t & Hino & Ho' & Hk & Hi')].
  { rewrite Hnil in Ho. done. }
  change (os.open_ino (os.log os.EvUnlock (world s1)) (fd (hdl s1)))
    with (os.open_ino (world s1) (fd (hdl s1))) in Ho.
  rewrite Ho' in Ho. injection Ho as <-.
  change (os.inodes (os.log os.EvUnlock (world s1))) with (os.inodes (world s1))
    in Hi0.
  rewrite Hi' in Hi0. injection Hi0 as <-.
  split; [rewrite length_app; cbn; lia|].
  eexists ino, i, ino', _. rewrite Hn, Hin.
  rewrite lookup_insert_ne by done. rewrite lookup_insert_eq.
  split_and!; try done.
  unfold os.open_ino in *. cbn [fd set_mux]. by rewrite Hhp.
Qed.

(** X2.  A [Write] that rolls the file over puts its payload in the new
    file and not in the rolled one: with the mutex free, the rollover due,
    the base name a regular file and the rolled name a different file, a
    [Write] that returns no error leaves the rolled name with exactly what
    the base name held before the call and the base name with exactly the
    payload and a newline, and [fd] open on the base name. *)
Theorem Write_rolls_then_appends
  (p : list byte) (s s' : State) (data : list byte) (n : Z) :
  let l := hdl s in
  let fName := rolled_name l (reading s 0) in
  mux l = false →
  rolloverAt l <= reading s 0 →
  os.contents (world s) (baseName l) = Some data →
  path.Clean fName ≠ path.Clean (baseName l) →
  TimeRotatingFileHandler_Write p s = Val (n, None) s' →
  os.contents (world s') fName = Some data ∧
  os.contents (world s') (baseName l) = Some (p ++ [fmt.newline]) ∧
  (∃ ino, os.open_ino (world s') (fd (hdl s')) = Some ino ∧
          os.nodes (world s') !! path.Clean (baseName l) = Some (os.Reg ino)) ∧
  n = Z.of_nat (length p) + 1.
Proof.
  cbv zeta. intros Hm Hdue Hc Hne Hw.
  destruct (Write_rolls_then_appends_aux p s s' data n Hm Hdue Hc Hne Hw)
    as (Hn & ino & i & ino' & i' & Hkn & Hi & Hd & Hk & Hi' & Hd' & Ho).
  split_and!; [| |eauto|done]; apply contents_Some; eauto.
Qed.

Lemma Write_rolls_then_appends_witness :
  let s := mkState (sample_handler 1704103445)
             (sample_world (ticking 1704103445) 8 ["x"%byte; fmt.newline]) in
  let s' := final (TimeRotatingFileHandler_Write ["a"%byte] s) in
  os.contents (world s') (rolled_name (hdl s) (reading s 0))
  = Some ["x"%byte; fmt.newline] ∧
  os.contents (world s') (baseName (hdl s)) = Some (["a"%byte] ++ [fmt.newline]) ∧
  (∃ ino, os.open_ino (world s') (fd (hdl s')) = Some ino ∧
          os.nodes (world s') !! path.Clean (baseName (hdl s)) = Some (os.Reg ino)) ∧
  2 = Z.of_nat (length ["a"%byte]) + 1.
Proof.
  cbv zeta.
  apply (Write_rolls_then_appends ["a"%byte]
           (mkState (sample_handler 1704103445)
              (sample_world (ticking 1704103445) 8 ["x"%byte; fmt.newline]))
           (final (TimeRotatingFileHandler_Write ["a"%byte]
                     (mkState (sample_handler 1704103445)
                        (sample_world (ticking 1704103445) 8
                           ["x"%byte; fmt.newline]))))
           ["x"%byte; fmt.newline] 2).
  - reflexivity.
  - vm_compute. discriminate.
  - vm_compute. reflexivity.
  - vm_compute. discriminate.
  - vm_compute. reflexivity.
Defined.

(** ** The worker loop writes its payloads in order *)

(** One [Write] that is not due, into an open file with room. *)
Lemma Write_not_due_full p s ino i :
  mux (hdl s) = false →
  reading s 0 < rolloverAt (hdl s) →
  os.open_ino (world s) (fd (hdl s)) = Some ino →
  os.inodes (world s) !! ino = Some i →
  (length p + 1 ≤ os.free_bytes (world s))%nat →
  ∃ s',
    TimeRotatingFileHandler_Write p s = Val (Z.of_nat (length p) + 1, None) s' ∧
    hdl s' = hdl s ∧
    os.nodes (world s') = os.nodes (world s) ∧
    os.heap (world s') = os.heap (world s) ∧
    os.clock (world s') = os.clock (world s) ∧
    os.tick (world s') = S (os.tick (world s)) ∧
    os.free_bytes (world s') = (os.free_bytes (world s) - (length p + 1))%nat ∧
    os.inodes (world s') =
      <[ino := os.Inode (os.i_data i ++ p ++ [fmt.newline])
                 (os.clock (world s) (S (os.tick (world s))))]>
        (os.inodes (world s)).
Proof.
  intros Hm Hlt Ho Hi Hb. rewrite (Write_not_due p s Hm Hlt). cbv zeta.
  unfold fmt.Fprintln.
  set (w1 := os.log os.EvUnlock (os.Now (os.log os.EvLock (world s))).2).
  assert (Hb' : (length (p ++ [fmt.newline]) ≤ os.free_bytes w1)%nat).
  { rewrite length_app. cbn. lia. }
  rewrite (os_Write_full (fd (hdl s)) (p ++ [fmt.newline]) w1 ino i Ho Hi Hb').
  assert (Hlen : Z.of_nat (length (p ++ [fmt.newline])) = Z.of_nat (length p) + 1).
  { rewrite length_app. cbn. lia. }
  cbn [fst snd]. rewrite Hlen.
  eexists. split; [reflexivity|]. split_and!; try done.
  cbn. rewrite length_app. done.
Qed.

Lemma lines_cons p ps : lines (p :: ps) = (p ++ [fmt.newline]) ++ lines ps.
Proof. done. Qed.

Lemma handleLog_in_order_aux ps : ∀ c s ino i,
  mux (hdl s) = false →
  (∀ k, (k < length ps)%nat → reading s k < rolloverAt (hdl s)) →
  os.open_ino (world s) (fd (hdl s)) = Some ino →
  os.inodes (world s) !! ino = Some i →
  (length (lines ps) ≤ os.free_bytes (world s))%nat →
  ∃ c' s' i',
    handleLog ps c s = Val c' s' ∧
    hdl s' = hdl s ∧
    os.nodes (world s') = os.nodes (world s) ∧
    os.heap (world s') = os.heap (world s) ∧
    os.inodes (world s') !! ino = Some i' ∧
    os.i_data i' = os.i_data i ++ lines ps ∧
    (∀ ino', ino' ≠ ino →
       os.inodes (world s') !! ino' = os.inodes (world s) !! ino').
Proof.
  induction ps as [|p ps IH]; intros c s ino i Hm Hnd Ho Hi Hb.
  - exists c, s, i. cbn. rewrite app_nil_r. by split_and!.
  - rewrite lines_cons, length_app in Hb.
    assert (Hlen : length (p ++ [fmt.newline]) = (length p + 1)%nat).
    { rewrite length_app. done. }
    destruct (Write_not_due_full p s ino i Hm) as
      (s1 & Hw & Hh & Hn & Hhp & Hc & Ht & Hfb & Hin); try done.
    { apply (Hnd 0%nat). cbn. lia. }
    { lia. }
    rewrite handleLog_cons. cbn [Write TimeRotatingFileHandler_Handler].
    rewrite Hw.
    destruct (IH (incr_handledNum c) s1 ino
                (os.Inode (os.i_data i ++ p ++ [fmt.newline])
                   (os.clock (world s) (S (os.tick (world s))))))
      as (c' & s' & i' & Hrun & Hh' & Hn' & Hhp' & Hi' & Hd' & Hoth).
    + by rewrite Hh.
    + intros k Hk. rewrite Hh. unfold reading. rewrite Hc, Ht.
      specialize (Hnd (S k)). unfold reading in Hnd.
      rewrite Nat.add_succ_r in Hnd. apply Hnd. cbn. lia.
    + unfold os.open_ino in *. by rewrite Hh, Hhp.
    + rewrite Hin. apply lookup_insert_eq.
    + rewrite Hfb. lia.
    + exists c', s', i'. split_and!; try done.
      * congruence.
      * congruence.
      * congruence.
      * rewrite Hd'. cbn [os.i_data]. rewrite lines_cons.
        by rewrite <- !app_assoc.
      * intros ino' Hne. rewrite (Hoth ino' Hne), Hin.
        by rewrite lookup_insert_ne.
Qed.

(** X3.  A worker that goes through its payloads while no rollover gets
    due, the file open and the device with room for them, leaves them in
    the file in the order received, each followed by one newline, after
    what the file held: nothing is lost, doubled, split or reordered, no
    other file changes, and the handler is as it was. *)
Theorem handleLog_appends_in_order
  (logChannel : list (list byte)) (c : ConfigStruct) (s : State)
  (ino : nat) (i : os.inode) :
  mux (hdl s) = false →
  (∀ k, (k < length logChannel)%nat → reading s k < rolloverAt (hdl s)) →
  os.open_ino (world s) (fd (hdl s)) = Some ino →
  os.inodes (world s) !! ino = Some i →
  (length (lines logChannel) ≤ os.free_bytes (world s))%nat →
  ∃ c' s' i',
    handleLog logChannel c s = Val c' s' ∧
    hdl s' = hdl s ∧
    os.inodes (world s') !! ino = Some i' ∧
    os.i_data i' = os.i_data i ++ lines logChannel ∧
    (os.nodes (world s) !! path.Clean (baseName (hdl s)) = Some (os.Reg ino) →
     os.contents (world s') (baseName (hdl s))
     = Some (os.i_data i ++ lines logChannel)) ∧
    os.nodes (world s') = os.nodes (world s) ∧
    (∀ ino', ino' ≠ ino →
       os.inodes (world s') !! ino' = os.inodes (world s) !! ino').
Proof.
  intros Hm Hnd Ho Hi Hb.
  destruct (handleLog_in_order_aux logChannel c s ino i Hm Hnd Ho Hi Hb)
    as (c' & s' & i' & Hrun & Hh & Hn & _ & Hi' & Hd & Hoth).
  exists c', s', i'. split_and!; try done.
  intros Hk. apply contents_Some. exists ino, i'. by rewrite Hn.
Qed.

Lemma handleLog_appends_in_order_witness :
  let s := mkState (sample_handler 1704107045)
             (sample_world (ticking 1704103445) 8 ["x"%byte; fmt.newline]) in
  let logChannel := [["a"%byte]; []; ["b"%byte; "c"%byte]] in
  let c := mkConfig "/var/log/kong-log" "127.0.0.1" "9513" 0 1704103445 in
  let i := os.Inode ["x"%byte; fmt.newline] 1704103445 in
  lines logChannel
  = ["a"%byte; fmt.newline; fmt.newline; "b"%byte; "c"%byte; fmt.newline] ∧
  ∃ c' s' i',
    handleLog logChannel c s = Val c' s' ∧
    hdl s' = hdl s ∧
    os.inodes (world s') !! 0%nat = Some i' ∧
    os.i_data i' = os.i_data i ++ lines logChannel ∧
    (os.nodes (world s) !! path.Clean (baseName (hdl s)) = Some (os.Reg 0) →
     os.contents (world s') (baseName (hdl s))
     = Some (os.i_data i ++ lines logChannel)) ∧
    os.nodes (world s') = os.nodes (world s) ∧
    (∀ ino', ino' ≠ 0%nat →
       os.inodes (world s') !! ino' = os.inodes (world s) !! ino').
Proof.
  cbv zeta. split; [reflexivity|].
  apply (handleLog_appends_in_order [["a"%byte]; []; ["b"%byte; "c"%byte]]
           (mkConfig "/var/log/kong-log" "127.0.0.1" "9513" 0 1704103445)
           (mkState (sample_handler 1704107045)
              (sample_world (ticking 1704103445) 8 ["x"%byte; fmt.newline]))
           0%nat (os.Inode ["x"%byte; fmt.newline] 1704103445)).
  - reflexivity.
  - intros k Hk. assert (k = 0 ∨ k = 1 ∨ k = 2)%nat as [->|[->| ->]]
      by (cbn in Hk; lia); vm_compute; reflexivity.
  - vm_compute. reflexivity.
  - vm_compute. reflexivity.
  - vm_compute. lia.
Defined.

(** ** What the constructor leaves *)

(** X4.  A constructor that succeeds has opened the file for appending:
    the directory of the name exists, the name denotes a regular file and
    [fd] is open on it; a file that was there keeps its contents (nothing
    is truncated) and a new one is empty; no other file or name of a
    regular file changed.  [rolloverAt] is the modification time of that
    file plus the interval, in [int64]; the handler has the name it was
    given and a free mutex. *)
Theorem newLogHandler_opens_for_append
  (name : string) (when m : Z) (w w' : os.World) (h : TimeRotatingFileHandler) :
  newLogHandler name when m w = Val (inl h) w' →
  baseName h = name ∧ mux h = false ∧
  ∃ ino i,
    os.open_ino w' (fd h) = Some ino ∧
    os.nodes w' !! path.Clean name = Some (os.Reg ino) ∧
    os.inodes w' !! ino = Some i ∧
    os.i_data i = default [] (os.contents w name) ∧
    rolloverAt h = int64_add (os.i_mtime i) (interval h) ∧
    (os.contents w name = None → os.i_mtime i = os.kernel_time w) ∧
    os.is_dir w' (path.Dir name) = true ∧
    (∀ k ino', os.nodes w !! k = Some (os.Reg ino') →
               os.nodes w' !! k = Some (os.Reg ino')) ∧
    (∀ ino', ino' ≠ ino → os.inodes w' !! ino' = os.inodes w !! ino').
Proof.
  rewrite newLogHandler_unfold. cbv zeta.
  pose proof (MkdirAll_frame (path.Dir name) w) as (Hi1 & Hh1 & [Hc1 Ht1] & Hreg).
  set (w1 := (os.MkdirAll (path.Dir name) w).2) in *.
  destruct (when_case when) as [[base layout]|]; [|done].
  destruct (os.OpenFile name w1).1 as [f|err] eqn:Ho; [|done].
  pose proof (OpenFile_ok name w1 f Ho) as Hok. cbv zeta in Hok.
  destruct Hok as (ino & Hf & Hh2 & Hd & Hcase).
  set (w2 := (os.OpenFile name w1).2) in *.
  assert (Hopen : os.open_ino w2 (Some f) = Some ino).
  { unfold os.open_ino. cbn. by rewrite Hh2, lookup_insert_eq. }
  unfold os.Stat. cbn [fst snd]. rewrite Hopen. cbn.
  destruct Hcase as [(Hk & [i Hi] & Hn2 & Hi2)|(Hk & Hfresh & Hn2 & Hi2)].
  - rewrite Hi2, Hi. cbn. intros [= <- <-]. cbn.
    split_and!; try done. exists ino, i.
    assert (Hcont : os.contents w name = Some (os.i_data i)).
    { apply contents_Some. exists ino, i. split_and!; [|congruence|done].
      by apply Hreg. }
    split_and!; try done.
    + by rewrite Hn2.
    + by rewrite Hi2.
    + by rewrite Hcont.
    + by rewrite Hcont.
    + unfold os.is_dir in *. cbn. by rewrite Hn2.
    + intros k ino' Hk'. rewrite Hn2. by apply Hreg.
    + intros ino' _. by rewrite Hi2, Hi1.
  - rewrite Hi2, lookup_insert_eq. cbn. intros [= <- <-]. cbn.
    split_and!; try done.
    exists ino, (os.Inode [] (os.kernel_time w1)).
    assert (Hcont : os.contents w name = None).
    { unfold os.contents.
      destruct (os.nodes w !! path.Clean name) as [[|ino0]|] eqn:Hk0; try done.
      apply Hreg in Hk0. congruence. }
    split_and!; try done.
    + rewrite Hn2. apply lookup_insert_eq.
    + rewrite Hi2. apply lookup_insert_eq.
    + by rewrite Hcont.
    + intros _. cbn. unfold os.kernel_time. by rewrite Hc1, Ht1.
    + unfold os.is_dir in *. cbn. rewrite Hn2.
      apply orb_true_iff in Hd as [Hd|Hd]; [by rewrite Hd|].
      apply bool_decide_eq_true in Hd.
      rewrite lookup_insert_ne by congruence.
      apply orb_true_iff. right. by apply bool_decide_eq_true.
    + intros k ino' Hk'. rewrite Hn2. apply Hreg in Hk'.
      rewrite lookup_insert_ne by congruence. done.
    + intros ino' Hne. rewrite Hi2, lookup_insert_ne by done. by rewrite Hi1.
Qed.

Lemma newLogHandler_opens_for_append_witness :
  let w := sample_world (ticking 1704110000) 8 ["x"%byte; fmt.newline] in
  let o := newLogHandler "/var/log/kong-log" WhenHour 1 w in
  let h := sample_handler 1704107045 in
  let w' := final o in
  baseName (set_fd (Some 1%nat) h) = "/var/log/kong-log" ∧
  mux (set_fd (Some 1%nat) h) = false ∧
  ∃ ino i,
    os.open_ino w' (fd (set_fd (Some 1%nat) h)) = Some ino ∧
    os.nodes w' !! path.Clean "/var/log/kong-log" = Some (os.Reg ino) ∧
    os.inodes w' !! ino = Some i ∧
    os.i_data i = default [] (os.contents w "/var/log/kong-log") ∧
    rolloverAt (set_fd (Some 1%nat) h)
    = int64_add (os.i_mtime i) (interval (set_fd (Some 1%nat) h)) ∧
    (os.contents w "/var/log/kong-log" = None →
     os.i_mtime i = os.kernel_time w) ∧
    os.is_dir w' (path.Dir "/var/log/kong-log") = true ∧
    (∀ k ino', os.nodes w !! k = Some (os.Reg ino') →
               os.nodes w' !! k = Some (os.Reg ino')) ∧
    (∀ ino', ino' ≠ ino → os.inodes w' !! ino' = os.inodes w !! ino').
Proof.
  cbv zeta.
  apply (newLogHandler_opens_for_append "/var/log/kong-log" WhenHour 1
           (sample_world (ticking 1704110000) 8 ["x"%byte; fmt.newline])).
  vm_compute. reflexivity.
Defined.

(** ** [Close] *)

Lemma Close_unfold s :
  TimeRotatingFileHandler_Close s =
  Val (os.Close (fd (hdl s)) (world s)).1
      (mkState (hdl s) (os.Close (fd (hdl s)) (world s)).2).
Proof.
  unfold TimeRotatingFileHandler_Close, mbind, M_bind, get_l, sys.
  by destruct (os.Close _ _).
Qed.

(** What an [os.File] that was closed without error looks like. *)
Lemma Close_ok f w :
  (os.Close f w).1 = None →
  ∃ h n ino,
    f = Some h ∧ os.heap w !! h = Some (os.mkFile n (Some ino)) ∧
    os.heap (os.Close f w).2 = <[h := os.mkFile n None]> (os.heap w).
Proof.
  unfold os.Close.
  destruct f as [h|]; [|done].
  destruct (os.heap w !! h) as [[n [ino|]]|] eqn:Hh; try done.
  intros _. exists h, n, ino. by cbn.
Qed.

(** X5.  [Close] on a handler whose file is open returns nil, and changes
    neither the handler (it keeps the pointer to the closed file) nor any
    file or name.  It is not idempotent: a second [Close] returns the
    error close: file already closed, again without changing anything. *)
Theorem Close_twice (s : State) (ino : nat) :
  os.open_ino (world s) (fd (hdl s)) = Some ino →
  ∃ s1 s2 name,
    TimeRotatingFileHandler_Close s = Val None s1 ∧
    TimeRotatingFileHandler_Close s1
    = Val (Some (PathError "close" name ErrClosed)) s2 ∧
    hdl s1 = hdl s ∧ hdl s2 = hdl s ∧
    os.open_ino (world s1) (fd (hdl s)) = None ∧
    os.nodes (world s2) = os.nodes (world s) ∧
    os.inodes (world s2) = os.inodes (world s) ∧
    os.heap (world s2) = os.heap (world s1).
Proof.
  intros Ho. rewrite Close_unfold.
  unfold os.open_ino in Ho. destruct (fd (hdl s)) as [h|] eqn:Hfd; [|done].
  cbn in Ho. destruct (os.heap (world s) !! h) as [[n fi]|] eqn:Hh; [|done].
  cbn in Ho. subst fi.
  pose proof (Close_result (Some h) (world s)) as Hr. cbn beta iota in Hr.
  rewrite Hh in Hr.
  pose proof (Close_ok (Some h) (world s) Hr) as (h' & n' & ino' & [= <-] & Hh' & Hheap).
  rewrite Hh in Hh'. injection Hh' as <- <-.
  pose proof (Close_files (Some h) (world s)) as (Hn & Hi & _).
  pose proof (Close_closes (Some h) (world s)) as Hcl.
  set (w1 := (os.Close (Some h) (world s)).2) in *.
  eexists _, _, n. rewrite Hr. split; [reflexivity|].
  rewrite Close_unfold. cbn [hdl world]. rewrite Hfd.
  pose proof (Close_result (Some h) w1) as Hr2. cbn beta iota in Hr2.
  rewrite Hheap, lookup_insert_eq in Hr2. rewrite Hr2.
  pose proof (Close_files (Some h) w1) as (Hn2 & Hi2 & _).
  split_and!; try done; cbn [world].
  - congruence.
  - congruence.
  - unfold os.Close. rewrite Hheap, lookup_insert_eq. done.
Qed.

Lemma Close_twice_witness :
  let s := mkState (sample_handler 1704107045)
             (sample_world (ticking 1704103445) 8 []) in
  ∃ s1 s2 name,
    TimeRotatingFileHandler_Close s = Val None s1 ∧
    TimeRotatingFileHandler_Close s1
    = Val (Some (PathError "close" name ErrClosed)) s2 ∧
    hdl s1 = hdl s ∧ hdl s2 = hdl s ∧
    os.open_ino (world s1) (fd (hdl s)) = None ∧
    os.nodes (world s2) = os.nodes (world s) ∧
    os.inodes (world s2) = os.inodes (world s) ∧
    os.heap (world s2) = os.heap (world s1).
Proof.
  cbv zeta.
  apply (Close_twice
           (mkState (sample_handler 1704107045)
              (sample_world (ticking 1704103445) 8 []))
           0%nat).
  vm_compute. reflexivity.
Defined.

(** X6.  After [Close], a [Write] that finds the rollover not due writes
    nothing: it returns 0 and the error write: file already closed, and
    no file, name or handler field changes.  But [Close] holds only until
    the next rollover: a [Write] after [Close] that finds the rollover
    due reopens the base name like any other, and when it returns no
    error the payload is in the new file. *)
Theorem Write_after_Close (p : list byte) (s s1 : State) :
  TimeRotatingFileHandler_Close s = Val None s1 →
  mux (hdl s) = false →
  (reading s 0 < rolloverAt (hdl s) →
   ∃ name s2,
     TimeRotatingFileHandler_Write p s1
     = Val (0, Some (PathError "write" name ErrClosed)) s2 ∧
     hdl s2 = hdl s ∧
     os.inodes (world s2) = os.inodes (world s) ∧
     os.nodes (world s2) = os.nodes (world s)) ∧
  (rolloverAt (hdl s) <= reading s 0 →
   ∀ data n s2,
     os.contents (world s) (baseName (hdl s)) = Some data →
     path.Clean (rolled_name (hdl s) (reading s 0)) ≠ path.Clean (baseName (hdl s)) →
     TimeRotatingFileHandler_Write p s1 = Val (n, None) s2 →
     os.contents (world s2) (baseName (hdl s)) = Some (p ++ [fmt.newline]) ∧
     os.contents (world s2) (rolled_name (hdl s) (reading s 0)) = Some data).
Proof.
  rewrite Close_unfold. intros [= Hr <-] Hm. cbn [hdl world].
  pose proof (Close_ok _ _ Hr) as (h & n & ino & Hfd & Hh & Hheap).
  pose proof (Close_files (fd (hdl s)) (world s)) as (Hn & Hi & _).
  pose proof (Close_clock (fd (hdl s)) (world s)) as [Hc Ht].
  set (w1 := (os.Close (fd (hdl s)) (world s)).2) in *.
  set (s1 := mkState (hdl s) w1).
  assert (Hread : ∀ k, reading s1 k = reading s k).
  { intros k. unfold reading. cbn. by rewrite Hc, Ht. }
  split.
  - intros Hlt. rewrite (Write_not_due p s1); [|done|by rewrite Hread].
    cbv zeta. unfold fmt.Fprintln. cbn [hdl world s1]. rewrite Hfd.
    erewrite os_Write_closed; [|cbn; rewrite Hheap; apply lookup_insert_eq].
    eexists n, _. split; [reflexivity|]. cbn. by split_and!.
  - intros Hdue data n0 s2 Hcont Hne Hw.
    destruct (Write_rolls_then_appends_aux p s1 s2 data n0)
      as (_ & ino1 & i1 & ino2 & i2 & Hkn & Hi1 & Hd1 & Hk & Hi2 & Hd2 & _);
      try done.
    + by rewrite Hread.
    + unfold os.contents in *. cbn. by rewrite Hn, Hi.
    + by rewrite Hread.
    + rewrite Hread in Hkn. cbn [hdl s1] in *.
      split; apply contents_Some; eauto.
Qed.

Lemma Write_after_Close_witness :
  let s := mkState (sample_handler 1704107045)
             (sample_world (ticking 1704103445) 8 []) in
  let s1 := final (TimeRotatingFileHandler_Close s) in
  let p := ["a"%byte] in
  (reading s 0 < rolloverAt (hdl s) →
   ∃ name s2,
     TimeRotatingFileHandler_Write p s1
     = Val (0, Some (PathError "write" name ErrClosed)) s2 ∧
     hdl s2 = hdl s ∧
     os.inodes (world s2) = os.inodes (world s) ∧
     os.nodes (world s2) = os.nodes (world s)) ∧
  (rolloverAt (hdl s) <= reading s 0 →
   ∀ data n s2,
     os.contents (world s) (baseName (hdl s)) = Some data →
     path.Clean (rolled_name (hdl s) (reading s 0)) ≠ path.Clean (baseName (hdl s)) →
     TimeRotatingFileHandler_Write p s1 = Val (n, None) s2 →
     os.contents (world s2) (baseName (hdl s)) = Some (p ++ [fmt.newline]) ∧
     os.contents (world s2) (rolled_name (hdl s) (reading s 0)) = Some data).
Proof.
  cbv zeta.
  apply (Write_after_Close ["a"%byte]
           (mkState (sample_handler 1704107045)
              (sample_world (ticking 1704103445) 8 []))).
  - vm_compute. reflexivity.
  - reflexivity.
Defined.

(** ** A log file that was removed *)

(** X7.  When the base name denotes nothing any more (the log file was
    removed or moved away under the handler), a [Write] that finds the
    rollover not due still succeeds, but into the file without a name:
    afterwards there is still no file under the base name.  The first
    [Write] that finds the rollover due panics with the error of the
    rename, ENOENT or EEXIST, having closed the file and changed no file
    contents. *)
Theorem Write_without_file (p : list byte) (s : State) :
  mux (hdl s) = false →
  os.nodes (world s) !! path.Clean (baseName (hdl s)) = None →
  (reading s 0 < rolloverAt (hdl s) →
   ∃ n err s',
     TimeRotatingFileHandler_Write p s = Val (n, err) s' ∧
     os.contents (world s') (baseName (hdl s)) = None ∧
     os.nodes (world s') = os.nodes (world s)) ∧
  (rolloverAt (hdl s) <= reading s 0 →
   ∃ e s',
     TimeRotatingFileHandler_Write p s
     = Panicked (LinkError "rename" (baseName (hdl s))
                   (rolled_name (hdl s) (reading s 0)) e) s' ∧
     (e = ENOENT ∨ e = EEXIST) ∧
     os.open_ino (world s') (fd (hdl s')) = None ∧
     os.inodes (world s') = os.inodes (world s) ∧
     os.nodes (world s') = os.nodes (world s)).
Proof.
  intros Hm Hk. split.
  - intros Hlt. rewrite (Write_not_due p s Hm Hlt). cbv zeta.
    unfold fmt.Fprintln.
    set (w1 := os.log os.EvUnlock (os.Now (os.log os.EvLock (world s))).2).
    pose proof (os_Write_effect (fd (hdl s)) (p ++ [fmt.newline]) w1) as He.
    cbv zeta in He. destruct He as (Hn & _).
    destruct (os.Write (fd (hdl s)) (p ++ [fmt.newline]) w1) as [[n err] w'].
    exists n, err, (mkState (hdl s) w'). cbn [fst snd world] in *.
    split_and!; [done| |done].
    unfold os.contents. rewrite Hn. subst w1. cbn. by rewrite Hk.
  - intros Hdue. rewrite Write_unfold, Hm, doRollover_unfold. cbv zeta.
    assert (Hnow : (os.Now (world (locked s))).1 = reading s 0).
    { unfold reading. cbn. by rewrite Nat.add_0_r. }
    rewrite Hnow. unfold time.Unix.
    cbn [locked hdl world rolloverAt set_mux fd baseName suffix interval].
    rewrite (proj2 (Z.leb_le _ _) Hdue).
    set (w1 := (os.Now (os.log os.EvLock (world s))).2).
    pose proof (Close_files (fd (hdl s)) w1) as (Hn2 & Hi2 & _).
    pose proof (Close_closes (fd (hdl s)) w1) as Hcl.
    set (w2 := (os.Close (fd (hdl s)) w1).2) in *.
    pose proof (Rename_files (baseName (hdl s))
                  (baseName (hdl s) +:+ time.Format (reading s 0) (suffix (hdl s)))
                  w2) as (Hi3 & Hh3 & _).
    destruct (Rename_missing (baseName (hdl s))
                (baseName (hdl s) +:+ time.Format (reading s 0) (suffix (hdl s)))
                w2) as (e & Hre & He & Hn3).
    { by rewrite Hn2. }
    rewrite Hre. eexists e, _. split; [reflexivity|].
    cbn [hdl world fd set_mux]. split_and!; try done.
    + unfold os.open_ino in *. by rewrite Hh3.
    + by rewrite Hi3, Hi2.
    + by rewrite Hn3, Hn2.
Qed.

Lemma Write_without_file_witness :
  let s := mkState (sample_handler 1704103445)
             (unlinked_world (ticking 1704103445)) in
  let p := ["a"%byte] in
  (reading s 0 < rolloverAt (hdl s) →
   ∃ n err s',
     TimeRotatingFileHandler_Write p s = Val (n, err) s' ∧
     os.contents (world s') (baseName (hdl s)) = None ∧
     os.nodes (world s') = os.nodes (world s)) ∧
  (rolloverAt (hdl s) <= reading s 0 →
   ∃ e s',
     TimeRotatingFileHandler_Write p s
     = Panicked (LinkError "rename" (baseName (hdl s))
                   (rolled_name (hdl s) (reading s 0)) e) s' ∧
     (e = ENOENT ∨ e = EEXIST) ∧
     os.open_ino (world s') (fd (hdl s')) = None ∧
     os.inodes (world s') = os.inodes (world s) ∧
     os.nodes (world s') = os.nodes (world s)).
Proof.
  cbv zeta.
  apply (Write_without_file ["a"%byte]
           (mkState (sample_handler 1704103445)
              (unlinked_world (ticking 1704103445)))).
  - reflexivity.
  - vm_compute. reflexivity.
Defined.

(** ** What [Write] and the loop never change *)

(** X8.  Whatever happens in a [Write] (it returns, with or without an
    error, panics or finds the mutex held), the handler keeps its
    [baseName], [interval] and [suffix].  A [Write] that returns has
    released the mutex; one that panics still holds it; one that finds
    it held has done nothing at all. *)
Theorem Write_keeps_configuration (p : list byte) (s : State) :
  let o := TimeRotatingFileHandler_Write p s in
  baseName (hdl (final o)) = baseName (hdl s) ∧
  interval (hdl (final o)) = interval (hdl s) ∧
  suffix (hdl (final o)) = suffix (hdl s) ∧
  (∀ r s', o = Val r s' → mux (hdl s) = false ∧ mux (hdl s') = false) ∧
  (∀ e s', o = Panicked e s' → mux (hdl s) = false ∧ mux (hdl s') = true) ∧
  (∀ s', o = Blocked s' → mux (hdl s) = true ∧ s' = s).
Proof.
  cbv zeta.
  destruct (Write_cases p s)
    as [(Hm & Hb & _)|[(Hm & _ & n & err & Hv & Hh & _)|
        [(Hm & _ & cerr & e0 & Hp & Hh & _)|
         (Hm & _ & cerr & r & n & err & Hv & Hh & _)]]];
    cbv zeta in *.
  - rewrite Hb. cbn [final]. split_and!; try done. by intros s' [= <-].
  - rewrite Hh. split_and!; try done; rewrite Hv.
    + intros r s' [= _ <-]. by rewrite Hh.
    + done.
    + done.
  - rewrite Hh. split_and!; try done; rewrite Hp.
    + done.
    + intros e s' [= _ <-]. by rewrite Hh.
    + done.
  - rewrite Hh. split_and!; try done; rewrite Hv.
    + intros r0 s' [= _ <-]. rewrite Hh. done.
    + done.
    + done.
Qed.

(** ** Batches *)

(** X9.  For every implementation of [Handler]: going through a batch of
    payloads is going through its first part and then, from the state and
    the counter that leaves, through the rest; when the first part ends
    in a panic, nothing of the rest is written or counted. *)
Theorem handleLog_app {St : Type} `{Handler St}
  (ps1 ps2 : list (list byte)) (c : ConfigStruct) (s : St) :
  handleLog (ps1 ++ ps2) c s =
  match handleLog ps1 c s with
  | Val c1 s1 => handleLog ps2 c1 s1
  | Panicked e s1 => Panicked e s1
  | Blocked s1 => Blocked s1
  end.
Proof.
  revert c s. induction ps1 as [|p ps1 IH]; intros c s; [done|].
  rewrite <- app_comm_cons, !handleLog_cons.
  destruct (Write p s) as [r s1|e s1|s1]; [|done..]. apply IH.
Qed.

(** ** An interval that is not positive *)

Lemma prefix_snoc {A} (l1 l2 : list A) x : l1 `prefix_of` l2 → l1 `prefix_of` l2 ++ [x].
Proof. intros [k ->]. exists (k ++ [x]). by rewrite app_assoc. Qed.

Lemma doRollover_trace_prefix s :
  os.trace (world s) `prefix_of` os.trace (world (final (doRollover s))).
Proof.
  rewrite doRollover_unfold. cbv zeta.
  assert (H1 : os.trace (world s) `prefix_of` os.trace (os.Now (world s)).2).
  { cbn. by apply prefix_snoc. }
  destruct (_ <=? _); [|done].
  set (w1 := (os.Now (world s)).2) in *.
  assert (H2 : os.trace (world s) `prefix_of`
               os.trace (os.Close (fd (hdl s)) w1).2).
  { rewrite Close_trace. by apply prefix_snoc. }
  set (w2 := (os.Close (fd (hdl s)) w1).2) in *.
  set (fName := baseName (hdl s) +:+ _).
  assert (H3 : os.trace (world s) `prefix_of`
               os.trace (os.Rename (baseName (hdl s)) fName w2).2).
  { rewrite Rename_trace. by apply prefix_snoc. }
  destruct (os.Rename (baseName (hdl s)) fName w2).1; [done|].
  cbn [final world]. cbn. apply prefix_snoc. rewrite OpenFile_trace.
  by apply prefix_snoc.
Qed.

Lemma Write_trace_prefix p s :
  os.trace (world s) `prefix_of`
  os.trace (world (final (TimeRotatingFileHandler_Write p s))).
Proof.
  rewrite Write_unfold. destruct (mux (hdl s)); [done|].
  pose proof (doRollover_trace_prefix (locked s)) as Hd.
  assert (H0 : os.trace (world s) `prefix_of` os.trace (world (locked s))).
  { cbn. by apply prefix_snoc. }
  destruct (doRollover (locked s)) as [[] s1|e s1|s1]; cbn [final] in *;
    try (by etrans).
  cbn [world]. unfold fmt.Fprintln. rewrite Write_trace.
  apply prefix_snoc. cbn. apply prefix_snoc. by etrans.
Qed.

Lemma write_all_trace_prefix ps s :
  os.trace (world s) `prefix_of` os.trace (world (final (write_all ps s))).
Proof.
  revert s. induction ps as [|p ps IH]; intros s; [done|].
  rewrite write_all_cons.
  pose proof (Write_trace_prefix p s) as Hp.
  destruct (TimeRotatingFileHandler_Write p s) as [r s1|e s1|s1];
    cbn [final] in *; try done.
  etrans; [exact Hp|apply IH].
Qed.

Lemma new_events_trans w1 w2 w3 :
  os.trace w1 `prefix_of` os.trace w2 → os.trace w2 `prefix_of` os.trace w3 →
  new_events w1 w3 = new_events w1 w2 ++ new_events w2 w3.
Proof.
  intros [k1 H1] [k2 H2]. unfold new_events. rewrite H2, H1.
  rewrite (drop_app_length (os.trace w1 ++ k1)).
  by rewrite <- app_assoc, !drop_app_length.
Qed.

(** The clock readings a rollover that returns has taken. *)
Lemma doRollover_due_tick s s' :
  rolloverAt (hdl s) <= reading s 0 →
  doRollover s = Val () s' →
  os.tick (world s') = S (S (os.tick (world s))).
Proof.
  intros Hdue. rewrite doRollover_unfold. cbv zeta.
  assert (Hnow : (os.Now (world s)).1 = reading s 0).
  { unfold reading. by rewrite Nat.add_0_r. }
  rewrite Hnow. unfold time.Unix. rewrite (proj2 (Z.leb_le _ _) Hdue).
  set (w1 := (os.Now (world s)).2).
  pose proof (Close_clock (fd (hdl s)) w1) as [_ Ht2].
  set (w2 := (os.Close (fd (hdl s)) w1).2) in *.
  set (fName := baseName (hdl s) +:+ _).
  pose proof (Rename_clock (baseName (hdl s)) fName w2) as [_ Ht3].
  destruct (os.Rename (baseName (hdl s)) fName w2).1; [done|].
  pose proof (OpenFile_clock (baseName (hdl s))
                (os.Rename (baseName (hdl s)) fName w2).2) as [_ Ht4].
  intros [= <-]. cbn. rewrite Ht4, Ht3, Ht2. done.
Qed.

(** One [Write] of a restless handler: it renames, and what it leaves is
    restless again. *)
Lemma Write_restless p s r s' :
  restless s →
  TimeRotatingFileHandler_Write p s = Val r s' →
  renames (new_events (world s) (world s')) = 1%nat ∧ restless s'.
Proof.
  intros (Hm & Hi & Hdue & Hmono & Hfit) Hw.
  pose proof (Write_keeps_clock p s) as Hc. rewrite Hw in Hc. cbn [final] in Hc.
  assert (Htick : os.tick (world s') = S (S (os.tick (world s)))).
  { revert Hw. rewrite Write_unfold, Hm.
    destruct (doRollover (locked s)) as [[] s1|e s1|s1] eqn:Hd; [|done..].
    cbv zeta. intros [= _ <-]. cbn [world].
    pose proof (Write_clock (fd (hdl s1)) (p ++ [fmt.newline])
                  (os.log os.EvUnlock (world s1))) as [_ Ht].
    unfold fmt.Fprintln. rewrite Ht. cbn.
    by rewrite (doRollover_due_tick (locked s) s1 Hdue Hd). }
  destruct (Write_cases p s)
    as [(_ & Hb & _)|[(_ & Hlt & _)|
        [(_ & _ & cerr & e0 & Hp & _)|
         (_ & _ & cerr & r0 & n & err & Hv & Hh & Hev & _)]]];
    cbv zeta in *; [congruence|lia|congruence|].
  rewrite Hw in Hh, Hev. cbn [final] in Hh, Hev.
  split; [by rewrite Hev|].
  unfold restless. rewrite Hh, Hc.
  cbn [mux interval rolloverAt set_rolloverAt set_fd].
  split_and!; try done.
  unfold int64_add. rewrite wrap_int64_id by apply Hfit.
  unfold reading in *. rewrite Hc, Htick.
  pose proof (clock_mono (os.clock (world s)) (os.tick (world s) + 1)
                (S (S (os.tick (world s))) + 0) Hmono ltac:(lia)).
  lia.
Qed.

(** X10.  With an interval that is zero or negative (a multiplier 0 or
    below in the constructor) every [Write] rolls the file over: from a
    handler whose rollover is due, a sequence of [Write] calls that all
    return has renamed the log file once per call, and is again due at
    its end. *)
Theorem nonpositive_interval_rolls_every_write
  (ps : list (list byte)) (s s' : State) :
  mux (hdl s) = false →
  interval (hdl s) <= 0 →
  rolloverAt (hdl s) <= reading s 0 →
  (∀ n, os.clock (world s) n <= os.clock (world s) (S n)) →
  (∀ n, in_int64 (os.clock (world s) n + interval (hdl s))) →
  write_all ps s = Val () s' →
  renames (new_events (world s) (world s')) = length ps ∧
  rolloverAt (hdl s') <= reading s' 0.
Proof.
  intros Hm Hi Hdue Hmono Hfit.
  assert (Hr : restless s) by done. clear Hm Hi Hdue Hmono Hfit.
  revert s Hr. induction ps as [|p ps IH]; intros s Hr.
  - intros [= <-]. unfold new_events. rewrite drop_all. split; [done|]. apply Hr.
  - rewrite write_all_cons.
    pose proof (Write_trace_prefix p s) as Hp1.
    destruct (TimeRotatingFileHandler_Write p s) as [r s1|e s1|s1] eqn:Hw;
      [|done..].
    cbn [final] in Hp1. intros Hrest.
    destruct (Write_restless p s r s1 Hr Hw) as [Hone Hr1].
    destruct (IH s1 Hr1 Hrest) as [Hn Hd].
    pose proof (write_all_trace_prefix ps s1) as Hp2.
    rewrite Hrest in Hp2. cbn [final] in Hp2.
    split; [|done].
    rewrite (new_events_trans _ _ _ Hp1 Hp2). unfold renames in *.
    rewrite filter_app, length_app, Hone, Hn. done.
Qed.

Lemma nonpositive_interval_rolls_every_write_witness :
  let s := mkState (mkHandler (Some 0%nat) "/var/log/kong-log" 0
                      "2006-01-02_15-04-05" 1704103445 false)
             (sample_world (jumping 1704103445 1) 8 []) in
  let ps := [["a"%byte]; ["b"%byte]] in
  let s' := final (write_all ps s) in
  renames (new_events (world s) (world s')) = length ps ∧
  rolloverAt (hdl s') <= reading s' 0.
Proof.
  cbv zeta.
  apply (nonpositive_interval_rolls_every_write [["a"%byte]; ["b"%byte]]
           (mkState (mkHandler (Some 0%nat) "/var/log/kong-log" 0
                       "2006-01-02_15-04-05" 1704103445 false)
              (sample_world (jumping 1704103445 1) 8 []))).
  - reflexivity.
  - simpl. lia.
  - vm_compute. discriminate.
  - intros [|n]; simpl; lia.
  - intros [|n]; vm_compute; split; discriminate.
  - vm_compute. reflexivity.
Defined.

(** ** From the constructor to the file *)

(** The file a successful constructor has opened. *)
Lemma newLogHandler_open_file name when m w h w' :
  newLogHandler name when m w = Val (inl h) w' →
  baseName h = name ∧ mux h = false ∧
  ∃ ino i,
    os.open_ino w' (fd h) = Some ino ∧
    os.nodes w' !! path.Clean name = Some (os.Reg ino) ∧
    os.inodes w' !! ino = Some i ∧
    os.i_data i = default [] (os.contents w name) ∧
    os.tick w' = os.tick w ∧ os.clock w' = os.clock w ∧
    os.free_bytes w' = os.free_bytes w.
Proof.
  rewrite newLogHandler_unfold. cbv zeta.
  pose proof (MkdirAll_frame (path.Dir name) w) as (Hi1 & Hh1 & [Hc1 Ht1] & Hreg).
  pose proof (mkdirs_frame (path.ancestors (path.Dir name)) w) as (_ & _ & _ & _ & Hb1).
  assert (Hb1' : os.free_bytes (os.MkdirAll (path.Dir name) w).2 = os.free_bytes w).
  { unfold os.MkdirAll. by destruct (os.mkdirs _ w). }
  set (w1 := (os.MkdirAll (path.Dir name) w).2) in *.
  destruct (when_case when) as [[base layout]|]; [|done].
  destruct (os.OpenFile name w1).1 as [f|err] eqn:Ho; [|done].
  pose proof (OpenFile_ok name w1 f Ho) as Hok. cbv zeta in Hok.
  destruct Hok as (ino & Hf & Hh2 & Hd & Hcase).
  pose proof (OpenFile_clock name w1) as [Hc2 Ht2].
  pose proof (OpenFile_free_bytes name w1) as Hb2.
  set (w2 := (os.OpenFile name w1).2) in *.
  assert (Hopen : os.open_ino w2 (Some f) = Some ino).
  { unfold os.open_ino. cbn. by rewrite Hh2, lookup_insert_eq. }
  unfold os.Stat. cbn [fst snd]. rewrite Hopen. cbn.
  destruct Hcase as [(Hk & [i Hi] & Hn2 & Hi2)|(Hk & Hfresh & Hn2 & Hi2)].
  - rewrite Hi2, Hi. cbn. intros [= <- <-]. cbn.
    split_and!; try done. exists ino, i.
    assert (Hcont : os.contents w name = Some (os.i_data i)).
    { apply contents_Some. exists ino, i. split_and!; [|congruence|done].
      by apply Hreg. }
    split_and!; [exact Hopen|by rewrite Hn2|by rewrite Hi2|by rewrite Hcont
                |congruence..].
  - rewrite Hi2, lookup_insert_eq. cbn. intros [= <- <-]. cbn.
    split_and!; try done.
    exists ino, (os.Inode [] (os.kernel_time w1)).
    assert (Hcont : os.contents w name = None).
    { unfold os.contents.
      destruct (os.nodes w !! path.Clean name) as [[|ino0]|] eqn:Hk0; try done.
      apply Hreg in Hk0. congruence. }
    split_and!; [exact Hopen|rewrite Hn2; apply lookup_insert_eq
                |rewrite Hi2; apply lookup_insert_eq|by rewrite Hcont
                |congruence..].
Qed.

(** X11.  Records written through a new handler can be read back from the
    file: when the constructor succeeds and a worker then goes through
    its payloads before the first rollover gets due, with room on the
    device, the file under the name given to the constructor holds what
    it held before the constructor (nothing, if it was not there), then
    the payloads in order, each on a line of its own. *)
Theorem log_then_read_back
  (name : string) (when m : Z) (w w' : os.World) (h : TimeRotatingFileHandler)
  (logChannel : list (list byte)) (c : ConfigStruct) :
  newLogHandler name when m w = Val (inl h) w' →
  (∀ k, (k < length logChannel)%nat →
        os.clock w (os.tick w + k) < rolloverAt h) →
  (length (lines logChannel) ≤ os.free_bytes w)%nat →
  ∃ c' s',
    handleLog logChannel c (mkState h w') = Val c' s' ∧
    os.contents (world s') name
    = Some (default [] (os.contents w name) ++ lines logChannel).
Proof.
  intros Hnew Hnd Hroom.
  destruct (newLogHandler_open_file name when m w h w' Hnew)
    as (Hb & Hm & ino & i & Ho & Hk & Hi & Hd & Ht & Hc & Hfb).
  destruct (handleLog_in_order_aux logChannel c (mkState h w') ino i)
    as (c' & s' & i' & Hrun & Hh & Hn & _ & Hi' & Hd' & _); try done.
  - intros k Hk'. unfold reading. cbn. rewrite Hc, Ht. by apply Hnd.
  - cbn. by rewrite Hfb.
  - exists c', s'. split; [done|].
    apply contents_Some. exists ino, i'. rewrite Hn. cbn.
    split_and!; [done|done|]. by rewrite Hd', Hd.
Qed.

Lemma log_then_read_back_witness :
  let logChannel := [["a"%byte]; ["b"%byte]] in
  let c := mkConfig "/var/log/kong-log" "127.0.0.1" "9513" 0 1704103445 in
  let o := newLogHandler "/var/log/kong-log" WhenHour 1 empty_world in
  let h := mkHandler (Some 0%nat) "/var/log/kong-log" 3600 "2006-01-02_15"
             1704107045 false in
  ∃ c' s',
    handleLog logChannel c (mkState h (final o)) = Val c' s' ∧
    os.contents (world s') "/var/log/kong-log"
    = Some (default [] (os.contents empty_world "/var/log/kong-log")
            ++ lines logChannel).
Proof.
  cbv zeta.
  apply (log_then_read_back "/var/log/kong-log" WhenHour 1 empty_world).
  - vm_compute. reflexivity.
  - intros k Hk. assert (k = 0 ∨ k = 1)%nat as [->| ->] by (cbn in Hk; lia);
      vm_compute; reflexivity.
  - vm_compute. lia.
Defined.

(** ** From the endpoint to the file, with one worker *)

Lemma bodies_cons a sched :
  pipeline.bodies (a :: sched) =
  match a with pipeline.Post (data, None) => [data] | _ => [] end
  ++ pipeline.bodies sched.
Proof. done. Qed.

Lemma works_Post raw sched :
  pipeline.works (pipeline.Post raw :: sched) = pipeline.works sched.
Proof. done. Qed.

Lemma works_Work sched :
  pipeline.works (pipeline.Work :: sched) = S (pipeline.works sched).
Proof. done. Qed.

Lemma send_Some data ch ch' :
  ingress.send data ch = Some ch' →
  ingress.buf ch' = ingress.buf ch ++ [data] ∧ ingress.cap ch' = ingress.cap ch.
Proof. unfold ingress.send. case_decide; [|done]. by intros [= <-]. Qed.

Lemma recv_Some ch json ch' :
  ingress.recv ch = Some (json, ch') →
  ingress.buf ch = json :: ingress.buf ch' ∧ ingress.cap ch' = ingress.cap ch.
Proof.
  unfold ingress.recv. destruct (ingress.buf ch) as [|d rest]; [done|].
  by intros [= <- <-].
Qed.

Lemma pipeline_in_order_aux sched : ∀ y y' ino i,
  pipeline.run sched y = Some y' →
  pipeline.state y = pipeline.Up →
  mux (hdl (pipeline.writer y)) = false →
  os.open_ino (world (pipeline.writer y)) (fd (hdl (pipeline.writer y)))
  = Some ino →
  os.inodes (world (pipeline.writer y)) !! ino = Some i →
  (∀ k, (k < pipeline.works sched)%nat →
        reading (pipeline.writer y) k < rolloverAt (hdl (pipeline.writer y))) →
  (length (lines (ingress.buf (pipeline.channel y) ++ pipeline.bodies sched))
   ≤ os.free_bytes (world (pipeline.writer y)))%nat →
  let all := ingress.buf (pipeline.channel y) ++ pipeline.bodies sched in
  pipeline.state y' = pipeline.Up ∧
  (pipeline.works sched ≤ length all)%nat ∧
  ingress.buf (pipeline.channel y') = drop (pipeline.works sched) all ∧
  hdl (pipeline.writer y') = hdl (pipeline.writer y) ∧
  os.nodes (world (pipeline.writer y')) = os.nodes (world (pipeline.writer y)) ∧
  wrap_uint64 (handledNum (pipeline.c y')) =
  wrap_uint64 (handledNum (pipeline.c y) + Z.of_nat (pipeline.works sched)) ∧
  ∃ i', os.inodes (world (pipeline.writer y')) !! ino = Some i' ∧
        os.i_data i' =
        os.i_data i ++ lines (take (pipeline.works sched) all).
Proof.
  induction sched as [|a sched IH]; intros y y' ino i Hrun Hup Hm Ho Hi Hnd Hb.
  - cbn in Hrun. simplify_eq. cbn. rewrite !app_nil_r, Z.add_0_r.
    split_and!; try done; [lia|]. by exists i.
  - cbn [pipeline.run] in Hrun.
    destruct (pipeline.act a y) as [y1|] eqn:Ha; [|done].
    unfold pipeline.act in Ha. rewrite Hup in Ha.
    destruct a as [[data err1]|].
    + (* a request *)
      rewrite works_Post in *. rewrite bodies_cons in *.
      destruct err1 as [e|]; cbn in Ha.
      * simplify_eq. cbn [app] in *.
        by apply (IH _ y' ino i Hrun).
      * destruct (ingress.send data (pipeline.channel y)) as [ch'|] eqn:Hs;
          [|done].
        apply send_Some in Hs as [Hbuf _]. simplify_eq.
        cbv zeta.
        replace (ingress.buf (pipeline.channel y) ++ [data] ++ pipeline.bodies sched)
          with ((ingress.buf (pipeline.channel y) ++ [data]) ++ pipeline.bodies sched)
          in * by (by rewrite <- app_assoc).
        rewrite <- Hbuf in *.
        by apply (IH _ y' ino i Hrun).
    + (* the worker *)
      rewrite works_Work in *. rewrite bodies_cons in *. cbn [app] in *.
      destruct (ingress.recv (pipeline.channel y)) as [[json ch']|] eqn:Hr;
        [|done].
      apply recv_Some in Hr as [Hbuf _].
      rewrite Hbuf in *. cbn [app] in Hb. rewrite lines_cons, length_app in Hb.
      assert (Hlen : length (json ++ [fmt.newline]) = (length json + 1)%nat).
      { rewrite length_app. done. }
      destruct (Write_not_due_full json (pipeline.writer y) ino i Hm) as
        (s1 & Hw & Hh & Hn & Hhp & Hc & Ht & Hfb & Hin); try done.
      { apply Hnd. lia. }
      { lia. }
      rewrite handleLog_cons in Ha. cbn [Write TimeRotatingFileHandler_Handler] in Ha.
      rewrite Hw in Ha. cbn in Ha. simplify_eq.
      destruct (IH _ y' ino
                  (os.Inode (os.i_data i ++ json ++ [fmt.newline])
                     (os.clock (world (pipeline.writer y))
                        (S (os.tick (world (pipeline.writer y)))))) Hrun)
        as (Hup' & Hle & Hbuf' & Hh' & Hn' & Hnum & i' & Hi' & Hd');
        cbn [pipeline.state pipeline.writer pipeline.channel pipeline.c];
        try done.
      * congruence.
      * unfold os.open_ino in *. rewrite Hh, Hhp. done.
      * rewrite Hin. apply lookup_insert_eq.
      * intros k Hk. unfold reading. rewrite Hh, Hc, Ht.
        replace (S (os.tick (world (pipeline.writer y))) + k)%nat
          with (os.tick (world (pipeline.writer y)) + S k)%nat by lia.
        apply Hnd. lia.
      * rewrite Hfb. lia.
      * cbn [pipeline.state pipeline.writer pipeline.channel pipeline.c] in *.
        cbv zeta. cbn [app length take drop].
        split_and!; try done; try congruence; [lia| |].
        -- rewrite Hnum. cbn [handledNum incr_handledNum].
           rewrite wrap_uint64_add. f_equal. lia.
        -- exists i'. split; [done|]. rewrite Hd'. cbn [os.i_data].
           rewrite lines_cons. by rewrite <- !app_assoc.
Qed.

(** X12.  With one worker behind the endpoint, whatever the order in
    which the request handlers and the worker take their turns, while no
    rollover gets due and the device has room: the worker has written, in
    the order of the sends and each on a line of its own, the first
    payloads of those that were waiting in the channel followed by the
    readable bodies of the requests, one for each turn it took; the rest
    of them is what waits in the channel; the bodies that could not be
    read are nowhere; nothing has panicked; and the counter has advanced
    by the number of payloads written. *)
Theorem pipeline_in_order
  (sched : list pipeline.action) (y y' : pipeline.Sys)
  (ino : nat) (i : os.inode) :
  pipeline.run sched y = Some y' →
  pipeline.state y = pipeline.Up →
  mux (hdl (pipeline.writer y)) = false →
  os.open_ino (world (pipeline.writer y)) (fd (hdl (pipeline.writer y)))
  = Some ino →
  os.inodes (world (pipeline.writer y)) !! ino = Some i →
  (∀ k, (k < pipeline.works sched)%nat →
        reading (pipeline.writer y) k < rolloverAt (hdl (pipeline.writer y))) →
  (length (lines (ingress.buf (pipeline.channel y) ++ pipeline.bodies sched))
   ≤ os.free_bytes (world (pipeline.writer y)))%nat →
  let all := ingress.buf (pipeline.channel y) ++ pipeline.bodies sched in
  let written := take (pipeline.works sched) all in
  pipeline.state y' = pipeline.Up ∧
  length written = pipeline.works sched ∧
  written ++ ingress.buf (pipeline.channel y') = all ∧
  wrap_uint64 (handledNum (pipeline.c y')) =
  wrap_uint64 (handledNum (pipeline.c y) + Z.of_nat (length written)) ∧
  ∃ i', os.inodes (world (pipeline.writer y')) !! ino = Some i' ∧
        os.i_data i' = os.i_data i ++ lines written.
Proof.
  intros Hrun Hup Hm Ho Hi Hnd Hb.
  destruct (pipeline_in_order_aux sched y y' ino i Hrun Hup Hm Ho Hi Hnd Hb)
    as (Hup' & Hle & Hbuf & _ & _ & Hnum & Hfile).
  cbv zeta in *.
  assert (Hlen : length (take (pipeline.works sched)
                   (ingress.buf (pipeline.channel y) ++ pipeline.bodies sched))
                 = pipeline.works sched).
  { rewrite length_take. lia. }
  split_and!; try done.
  - rewrite Hbuf. apply take_drop.
  - by rewrite Hlen.
Qed.

Lemma pipeline_in_order_witness :
  let y := pipeline.mkSys (ingress.mkChan [] 1)
             (mkState (sample_handler 1704107045)
                (sample_world (ticking 1704103445) 8 ["x"%byte; fmt.newline]))
             (mkConfig "/var/log/kong-log" "127.0.0.1" "9513" 0 1704103445)
             pipeline.Up in
  let sched := [pipeline.Post (["a"%byte], None); pipeline.Work;
                pipeline.Post (["b"%byte], Some ErrInvalid);
                pipeline.Post (["c"%byte], None); pipeline.Work;
                pipeline.Post (["d"%byte], None)] in
  let y' := default y (pipeline.run sched y) in
  let i := os.Inode ["x"%byte; fmt.newline] 1704103445 in
  let all := ingress.buf (pipeline.channel y) ++ pipeline.bodies sched in
  let written := take (pipeline.works sched) all in
  written = [["a"%byte]; ["c"%byte]] ∧
  pipeline.state y' = pipeline.Up ∧
  length written = pipeline.works sched ∧
  written ++ ingress.buf (pipeline.channel y') = all ∧
  wrap_uint64 (handledNum (pipeline.c y')) =
  wrap_uint64 (handledNum (pipeline.c y) + Z.of_nat (length written)) ∧
  ∃ i', os.inodes (world (pipeline.writer y')) !! 0%nat = Some i' ∧
        os.i_data i' = os.i_data i ++ lines written.
Proof.
  cbv zeta. split; [reflexivity|].
  apply (pipeline_in_order _ _ _ 0%nat).
  - vm_compute. reflexivity.
  - reflexivity.
  - reflexivity.
  - vm_compute. reflexivity.
  - vm_compute. reflexivity.
  - intros k Hk. change (k < 2)%nat in Hk.
    assert (k = 0 ∨ k = 1)%nat as [->| ->] by lia; vm_compute; reflexivity.
  - vm_compute. lia.
Defined.
